(** * The pyoptsparse driver of OpenMDAO: a shallow embedding

    This development embeds [openmdao/drivers/pyoptsparse_driver.py]
    (class [pyOptSparseDriver]: [run], [objfunc], [gradfunc]) and the
    complex-step check exercised by
    [openmdao/components/test/test_execcomp.py].

    Python objects become records, attribute stores become explicit state,
    and every statement that can raise lives in a state-and-exception
    monad whose state survives a raise, the way a Python heap does. *)

From Stdlib Require Import ZArith QArith String List Lia.
From stdpp Require Import base gmap sets list strings.

Local Open Scope Z_scope.
Local Open Scope string_scope.

(** ** Python exceptions *)

(** The classes the driver can meet.  [KeyboardInterrupt] and [SystemExit]
    derive from [BaseException] only; every other one derives from
    [Exception].  [UnsupportedOptimizer] is the error of the options
    dictionary for an engine outside the declared values, under the name
    the specification gives it. *)
Inductive exc_class :=
| KeyError | AttributeError | TypeError | ImportError | RuntimeError
| UnsupportedOptimizer
| KeyboardInterrupt | SystemExit.

Record exn := Exn { exn_class : exc_class; exn_msg : string }.

(** [isinstance(e, Exception)]: what [except Exception] catches. *)
Definition isinstance_Exception (e : exn) : bool :=
  match exn_class e with
  | KeyboardInterrupt | SystemExit => false
  | _ => true
  end.

(** [isinstance(e, ImportError)]: what [except ImportError] catches. *)
Definition isinstance_ImportError (e : exn) : bool :=
  match exn_class e with
  | ImportError => true
  | _ => false
  end.

(** [str(msg)] of an exception object. *)
Definition str_exn (e : exn) : string := exn_msg e.

Inductive res (A : Type) :=
| Ok (a : A)
| Raise (e : exn).
Arguments Ok {A} a.
Arguments Raise {A} e.

(** ** The state-and-exception monad *)

Definition M (St A : Type) : Type := St -> res A * St.

Definition ret {St A} (a : A) : M St A := fun s => (Ok a, s).

Definition raise {St A} (e : exn) : M St A := fun s => (Raise e, s).

Definition bind {St A B} (m : M St A) (k : A -> M St B) : M St B :=
  fun s =>
    match m s with
    | (Ok a, s') => k a s'
    | (Raise e, s') => (Raise e, s')
    end.

Definition gets {St A} (f : St -> A) : M St A := fun s => (Ok (f s), s).

Definition modify {St} (f : St -> St) : M St unit := fun s => (Ok tt, f s).

(** [try: body / except <classes> as e: handler e].  An exception outside
    the caught classes goes through, with the state the body left. *)
Definition try_except {St A} (catches : exn -> bool)
    (body : M St A) (handler : exn -> M St A) : M St A :=
  fun s =>
    match body s with
    | (Ok a, s') => (Ok a, s')
    | (Raise e, s') => if catches e then handler e s' else (Raise e, s')
    end.

(** Running a computation on the second component of a pair of states
    (the heap under a frame of local variables). *)
Definition on_snd {F St A} (m : M St A) : M (F * St) A :=
  fun fs =>
    match m (snd fs) with
    | (r, s') => (r, (fst fs, s'))
    end.

Declare Scope py_scope.
Delimit Scope py_scope with py.
Notation "x <- m ;; k" := (bind m (fun x => k))
  (at level 20, m at level 99, k at level 200, only parsing) : py_scope.
Notation "' pat <- m ;; k" := (bind m (fun x => match x with pat => k end))
  (at level 20, pat pattern, m at level 99, k at level 200, only parsing)
  : py_scope.
Notation "m ;;; k" := (bind m (fun _ => k))
  (at level 100, k at level 200, only parsing, right associativity)
  : py_scope.
Local Open Scope py_scope.

(** [for x in l: f x]. *)
Fixpoint for_each {St A} (l : list A) (f : A -> M St unit) : M St unit :=
  match l with
  | [] => ret tt
  | x :: l' => f x ;;; for_each l' f
  end.

(** [for x in l: acc = f acc x], the accumulator being a local object. *)
Fixpoint for_fold {St A B} (l : list A) (acc : B) (f : B -> A -> M St B)
    : M St B :=
  match l with
  | [] => ret acc
  | x :: l' => acc' <- f acc x ;; for_fold l' acc' f
  end.

(** ** Specifications of computations

    [hoare P m Q]: started in a state where [P] holds, [m] ends, normally
    or by raising, in a state and with an outcome related by [Q]. *)
Definition hoare {St A} (P : St -> Prop) (m : M St A)
    (Q : res A -> St -> Prop) : Prop :=
  forall s, P s -> Q (fst (m s)) (snd (m s)).

(** [m] keeps [P], however it ends. *)
Definition preserved {St A} (P : St -> Prop) (m : M St A) : Prop :=
  hoare P m (fun _ => P).

(** ** Dictionaries

    Python dictionaries here are insertion ordered ([OrderedDict] in the
    framework), and [dv_dict.keys()] is passed on in that order: an
    association list with unique keys. *)
Definition dict (V : Type) : Type := list (string * V).

Definition keys {V} (d : dict V) : list string := map fst d.

Definition values {V} (d : dict V) : list V := map snd d.

Fixpoint dict_get {V} (d : dict V) (k : string) : option V :=
  match d with
  | [] => None
  | (k', v) :: d' => if String.eqb k' k then Some v else dict_get d' k
  end.

(** [d[k] = v]: replace in place, or append a new key at the end. *)
Fixpoint dict_set {V} (d : dict V) (k : string) (v : V) : dict V :=
  match d with
  | [] => [(k, v)]
  | (k', v') :: d' =>
      if String.eqb k' k then (k', v) :: d' else (k', v') :: dict_set d' k v
  end.

(** [d[k]], raising [KeyError]. *)
Definition getitem {St V} (d : dict V) (k : string) : M St V :=
  match dict_get d k with
  | Some v => ret v
  | None => raise (Exn KeyError k)
  end.

(** ** The data of an optimization session *)

(** Iteration metadata: the name of its owner and the iteration
    coordinate, a mutable dictionary in the framework. *)
Record local_meta := LocalMeta { meta_name : string; meta_coord : list Z }.

(** Modelled from the spec: [create_local_meta] of
    [openmdao.util.record_util] is not part of the sources; the spec's
    data model gives the metadata as an iteration counter plus a
    record-keeping token, created once per run. *)
Definition create_local_meta (name : string) : local_meta :=
  {| meta_name := name; meta_coord := [0] |}.

(** Modelled from the spec: [update_local_meta] of
    [openmdao.util.record_util] is not part of the sources; it stores the
    iteration tuple in the metadata it is given, and cannot index [None]. *)
Definition update_local_meta {St} (md : option local_meta)
    (iteration : list Z) : M St local_meta :=
  match md with
  | Some m => ret {| meta_name := meta_name m; meta_coord := iteration |}
  | None => raise (Exn TypeError "'NoneType' object is not subscriptable")
  end.

Record Comm := { comm_rank : Z; comm_size : Z }.

Section Session.

(** Array values ([numpy] arrays and floats) and the state of the model
    tree are opaque to the driver: it only moves them around. *)
Context {value Model : Type}.

(** The second argument of [calc_gradient]: [gradfunc] hands over response
    names, [run] hands over the values of a dictionary. *)
Inductive unknown_list :=
| Names (l : list string)
| Values (l : list value).

(** A sensitivity dictionary: response, then design variable. *)
Definition sens_dict_t : Type := dict (dict value).

(** [problem.root] / [self.root]: the top system of the model. *)
Record System := {
  comm : Comm;
  relevant : gmap string (gset string);
  fd_options : dict value;
  solve_nonlinear : option local_meta -> Model -> res unit * Model
}.

Record Problem := {
  root : System;
  calc_gradient :
    list string -> unknown_list -> string -> Model -> res sens_dict_t * Model
}.

(** Metadata of a design variable and of a constraint, as the registry
    reads them: [meta['size']], [meta['low']], [meta['high']] and
    [con_meta[name]['size' | 'equals' | 'lower' | 'upper' | 'linear']]. *)
Record param_meta := {
  pm_size : Z; pm_low : option value; pm_high : option value
}.

Record con_meta_t := {
  cm_size : Z;
  cm_equals : option value;
  cm_lower : option value;
  cm_upper : option value;
  cm_linear : bool
}.

(** The part of the base class [Driver] the subclass calls, for a driver
    that belongs to a problem that has been set up: [self_root] is
    [self.root], the root system the set-up attaches.  (Before that,
    [self.root] is [None], and the first lines of [objfunc], which read
    [self.root.comm], raise [AttributeError].)  The bookkeeping tables are
    fixed during a run, the values are read from the model. *)
Record Driver := {
  self_root : System;
  get_param_metadata : dict param_meta;
  get_params : Model -> res (dict value);
  get_objectives : Model -> res (dict value);
  get_constraint_metadata : dict con_meta_t;
  constraint_value : string -> Model -> res value;
  set_param : string -> value -> Model -> res unit * Model;
  record : option local_meta -> Model -> res unit * Model
}.

(** What the engine returns: [sol.getDVs()] and [sol.optInform]. *)
Record Solution := {
  getDVs : dict value;
  optInform : gmap string Z
}.

(** Calls on the [Optimization] object of pyoptsparse. *)
Inductive reg_call :=
| addVarGroup (name : string) (size : Z) (type_ : string)
    (val : value) (lower upper : option value)
| finalizeDesignVariables
| addObj (name : string)
| addConGroup (name : string) (size : Z) (lower upper : option value)
    (linear : bool) (wrt : gset string) (jac : option (dict value)).

Record Optimization := {
  opt_title : string;
  opt_calls : list reg_call
}.

Definition Optimization_new (title : string) : Optimization :=
  {| opt_title := title; opt_calls := [] |}.

Definition register (c : reg_call) (p : Optimization) : Optimization :=
  {| opt_title := opt_title p; opt_calls := opt_calls p ++ [c] |}.

(** [sens='FD', sensStep=fd_step] or [sens=self.gradfunc]. *)
Inductive sens_arg :=
| sens_FD (sensStep : value)
| sens_gradfunc.

(** The optimizer engine is a black box that calls back: a finite tree of
    the calls it makes and of what it does with each answer. *)
Inductive engine :=
| Returns (sol : Solution)
| Raises (e : exn)
| CallObjfunc (dv_dict : dict value) (k : dict value * Z -> engine)
| CallGradfunc (dv_dict func_dict : dict value)
    (k : sens_dict_t * Z -> engine).

(** An optimizer class of pyoptsparse, once instantiated and given its
    options. *)
Record Optimizer := {
  opt_run : dict value -> Optimization -> sens_arg -> engine
}.

(** The options declared in [__init__] (lines 61-70).  ['optimizer'] is
    declared with [values=['SNOPT']]: see [optimizer_values] and
    [set_optimizer] for the way a value gets there. *)
Record Options := {
  optimizer : string;
  title : string;
  print_results : bool;
  pyopt_diff : bool;
  option_exit_flag : Z
}.

(** The attributes of a [pyOptSparseDriver].  [iter_count] and
    [param_list] are first assigned in [run]: before that, reading them
    raises [AttributeError]. *)
Record pyOptSparseDriver := {
  options : Options;
  opt_settings : dict value;
  pyopt_solution : option Solution;
  lin_jacs : sens_dict_t;
  quantities : list string;
  metadata : option local_meta;
  exit_flag : Z;
  _problem : option Problem;
  iter_count : option Z;
  param_list : option (list string)
}.

(** [pyOptSparseDriver.__init__]. *)
Definition init : pyOptSparseDriver := {|
  options := {| optimizer := "SNOPT";
                title := "Optimization using pyOpt_sparse";
                print_results := true;
                pyopt_diff := false;
                option_exit_flag := 0 |};
  opt_settings := [];
  pyopt_solution := None;
  lin_jacs := [];
  quantities := [];
  metadata := None;
  exit_flag := 0;
  _problem := None;
  iter_count := None;
  param_list := None
|}.

(** Every call that leaves the driver, in the order it is made. *)
Inductive event :=
| EvSolveNonlinear (md : option local_meta)
| EvCalcGradient (indep : list string) (unknowns : unknown_list)
    (return_format : string)
| EvSetParam (name : string) (v : value)
| EvRecord (md : option local_meta)
| EvOptProb (c : reg_call)
| EvSetOption (name : string) (v : value)
| EvOptimizer (p : Optimization) (s : sens_arg)
| EvPrint (s : string)
| EvPrintExc (e : exn)
| EvPrintSolution (sol : Solution).

(** The heap: the driver object, the model, and the log of calls. *)
Record world := {
  self : pyOptSparseDriver;
  model : Model;
  trace : list event
}.

(** *** Attribute stores *)

Definition set_pyopt_solution (v : option Solution) (d : pyOptSparseDriver) :=
  {| options := options d; opt_settings := opt_settings d;
     pyopt_solution := v; lin_jacs := lin_jacs d;
     quantities := quantities d; metadata := metadata d;
     exit_flag := exit_flag d; _problem := _problem d;
     iter_count := iter_count d; param_list := param_list d |}.

Definition set_lin_jacs (v : sens_dict_t) (d : pyOptSparseDriver) :=
  {| options := options d; opt_settings := opt_settings d;
     pyopt_solution := pyopt_solution d; lin_jacs := v;
     quantities := quantities d; metadata := metadata d;
     exit_flag := exit_flag d; _problem := _problem d;
     iter_count := iter_count d; param_list := param_list d |}.

Definition set_quantities (v : list string) (d : pyOptSparseDriver) :=
  {| options := options d; opt_settings := opt_settings d;
     pyopt_solution := pyopt_solution d; lin_jacs := lin_jacs d;
     quantities := v; metadata := metadata d;
     exit_flag := exit_flag d; _problem := _problem d;
     iter_count := iter_count d; param_list := param_list d |}.

Definition set_metadata (v : option local_meta) (d : pyOptSparseDriver) :=
  {| options := options d; opt_settings := opt_settings d;
     pyopt_solution := pyopt_solution d; lin_jacs := lin_jacs d;
     quantities := quantities d; metadata := v;
     exit_flag := exit_flag d; _problem := _problem d;
     iter_count := iter_count d; param_list := param_list d |}.

Definition set_exit_flag (v : Z) (d : pyOptSparseDriver) :=
  {| options := options d; opt_settings := opt_settings d;
     pyopt_solution := pyopt_solution d; lin_jacs := lin_jacs d;
     quantities := quantities d; metadata := metadata d;
     exit_flag := v; _problem := _problem d;
     iter_count := iter_count d; param_list := param_list d |}.

Definition set_problem (v : option Problem) (d : pyOptSparseDriver) :=
  {| options := options d; opt_settings := opt_settings d;
     pyopt_solution := pyopt_solution d; lin_jacs := lin_jacs d;
     quantities := quantities d; metadata := metadata d;
     exit_flag := exit_flag d; _problem := v;
     iter_count := iter_count d; param_list := param_list d |}.

Definition set_iter_count (v : option Z) (d : pyOptSparseDriver) :=
  {| options := options d; opt_settings := opt_settings d;
     pyopt_solution := pyopt_solution d; lin_jacs := lin_jacs d;
     quantities := quantities d; metadata := metadata d;
     exit_flag := exit_flag d; _problem := _problem d;
     iter_count := v; param_list := param_list d |}.

Definition set_param_list (v : option (list string)) (d : pyOptSparseDriver) :=
  {| options := options d; opt_settings := opt_settings d;
     pyopt_solution := pyopt_solution d; lin_jacs := lin_jacs d;
     quantities := quantities d; metadata := metadata d;
     exit_flag := exit_flag d; _problem := _problem d;
     iter_count := iter_count d; param_list := v |}.

Definition set_option_optimizer (name : string) (d : pyOptSparseDriver) :=
  {| options := {| optimizer := name; title := title (options d);
                   print_results := print_results (options d);
                   pyopt_diff := pyopt_diff (options d);
                   option_exit_flag := option_exit_flag (options d) |};
     opt_settings := opt_settings d;
     pyopt_solution := pyopt_solution d; lin_jacs := lin_jacs d;
     quantities := quantities d; metadata := metadata d;
     exit_flag := exit_flag d; _problem := _problem d;
     iter_count := iter_count d; param_list := param_list d |}.

(** *** Primitive steps on the heap *)

(** [self.attr]. *)
Definition getattr {A} (f : pyOptSparseDriver -> A) : M world A :=
  gets (fun w => f (self w)).

(** [self.attr] for an attribute that may not exist, or [obj.attr] on an
    object that may be [None]. *)
Definition getattr_or {A} (msg : string) (f : pyOptSparseDriver -> option A)
    : M world A :=
  o <- getattr f ;;
  match o with
  | Some a => ret a
  | None => raise (Exn AttributeError msg)
  end.

(** [self.attr = v]. *)
Definition setattr (f : pyOptSparseDriver -> pyOptSparseDriver)
    : M world unit :=
  modify (fun w => {| self := f (self w); model := model w;
                      trace := trace w |}).

Definition log (e : event) : M world unit :=
  modify (fun w => {| self := self w; model := model w;
                      trace := trace w ++ [e] |}).

(** A call into the model that may change it and may raise. *)
Definition on_model {A} (f : Model -> res A * Model) : M world A :=
  fun w =>
    match f (model w) with
    | (r, m') => (r, {| self := self w; model := m'; trace := trace w |})
    end.

(** A call into the model that only reads it. *)
Definition read_model {A} (f : Model -> res A) : M world A :=
  fun w => (f (model w), w).

Definition print (s : string) : M world unit := log (EvPrint s).

(** [70*"="]. *)
Definition rule70 : string :=
  "======================================================================".

(** *** Calls to the collaborators, logged *)

Definition call_solve_nonlinear (sys : System) (md : option local_meta)
    : M world unit :=
  log (EvSolveNonlinear md) ;;;
  on_model (solve_nonlinear sys md).

Definition call_calc_gradient (p : Problem) (indep : list string)
    (unknowns : unknown_list) (return_format : string)
    : M world sens_dict_t :=
  log (EvCalcGradient indep unknowns return_format) ;;;
  on_model (calc_gradient p indep unknowns return_format).

Definition call_set_param (base : Driver) (name : string) (v : value)
    : M world unit :=
  log (EvSetParam name v) ;;;
  on_model (set_param base name v).

Definition call_record (base : Driver) (md : option local_meta)
    : M world unit :=
  log (EvRecord md) ;;;
  on_model (record base md).

(** *** [Driver.get_constraints] *)

Inductive ctype_t := ctype_all | ctype_eq | ctype_ineq.
Inductive lintype_t := lintype_all | lintype_linear | lintype_nonlinear.

Definition is_equality (meta : con_meta_t) : bool :=
  match cm_equals meta with
  | Some _ => true
  | None => false
  end.

Definition selects (ctype : ctype_t) (lintype : lintype_t)
    (meta : con_meta_t) : bool :=
  match lintype with
  | lintype_all => true
  | lintype_linear => cm_linear meta
  | lintype_nonlinear => negb (cm_linear meta)
  end
  &&
  match ctype with
  | ctype_all => true
  | ctype_eq => is_equality meta
  | ctype_ineq => negb (is_equality meta)
  end.

(** The names [get_constraints(ctype, lintype)] returns, in order. *)
Definition constraint_names (base : Driver) (ctype : ctype_t)
    (lintype : lintype_t) : list string :=
  keys (filter (fun nm => selects ctype lintype (snd nm))
          (get_constraint_metadata base)).

Fixpoint read_values (base : Driver) (names : list string) (m : Model)
    : res (dict value) :=
  match names with
  | [] => Ok []
  | n :: names' =>
      match constraint_value base n m with
      | Raise e => Raise e
      | Ok v =>
          match read_values base names' m with
          | Raise e => Raise e
          | Ok d => Ok ((n, v) :: d)
          end
      end
  end.

(** Modelled from the spec: [Driver.get_constraints] is not part of the
    sources.  The spec's interface is
    [get_constraints(filterByKind, filterByLinearity)], an ordered mapping
    from the identifier of each constraint of that kind (equality: it has
    an equality target) and linearity to its current value. *)
Definition get_constraints (base : Driver) (ctype : ctype_t)
    (lintype : lintype_t) : Model -> res (dict value) :=
  read_values base (constraint_names base ctype lintype).

(** ** The evaluation callback *)

(** The local variables of [objfunc] that outlive its [try]. *)
Record objfunc_frame := { fail : Z; func_dict : dict value }.

Definition set_fail {St} (v : Z) : M (objfunc_frame * St) unit :=
  modify (fun fs => ({| fail := v; func_dict := func_dict (fst fs) |}, snd fs)).

(** [func_dict[name] = v]. *)
Definition store_func {St} (name : string) (v : value)
    : M (objfunc_frame * St) unit :=
  modify (fun fs => ({| fail := fail (fst fs);
                        func_dict := dict_set (func_dict (fst fs)) name v |},
                      snd fs)).

(** Lines 251-252: apply the design variables. *)
Definition apply_design_vars (base : Driver) (dv_dict : dict value)
    : M world unit :=
  pl <- getattr_or "param_list" param_list ;;
  for_each pl (fun name =>
    v <- getitem dv_dict name ;;
    call_set_param base name v).

(** Lines 258-259: advance the iteration counter, refresh the metadata.
    [metadata_] is the local alias of [self.metadata]; the update is in
    place, so the attribute sees it. *)
Definition advance_iteration (metadata_ : option local_meta)
    : M world local_meta :=
  ic <- getattr_or "iter_count" iter_count ;;
  setattr (set_iter_count (Some (ic + 1))) ;;;
  ic <- getattr_or "iter_count" iter_count ;;
  md <- update_local_meta metadata_ [ic] ;;
  setattr (set_metadata (Some md)) ;;;
  ret md.

(** Lines 264-283: harvest the objectives, then all the constraints. *)
Definition harvest (base : Driver) : M (objfunc_frame * world) unit :=
  objs <- on_snd (read_model (get_objectives base)) ;;
  for_each objs (fun no => store_func (fst no) (snd no)) ;;;
  cons <- on_snd (read_model (get_constraints base ctype_all lintype_all)) ;;
  for_each cons (fun nc => store_func (fst nc) (snd nc)).

(** The body of the [try] of [objfunc] (lines 251-293). *)
Definition objfunc_try (base : Driver) (metadata_ : option local_meta)
    (dv_dict : dict value) : M (objfunc_frame * world) unit :=
  on_snd (apply_design_vars base dv_dict) ;;;
  md <- on_snd (advance_iteration metadata_) ;;
  on_snd (call_solve_nonlinear (self_root base) (Some md)) ;;;
  harvest base ;;;
  on_snd (call_record base (Some md)) ;;;
  set_fail 0.

(** The handler of [objfunc] (lines 295-304). *)
Definition objfunc_except (msg : exn) : M (objfunc_frame * world) unit :=
  on_snd (print ("Exception: " ++ str_exn msg)) ;;;
  on_snd (print rule70) ;;;
  on_snd (log (EvPrintExc msg)) ;;;
  on_snd (print rule70) ;;;
  set_fail 1.

(** [pyOptSparseDriver.objfunc].  Lines 244-248 read [self.metadata],
    [self.root] and the communicator of the root before the [try]: with
    the root that [base] carries they cannot raise, and the guard of the
    [try] covers the rest. *)
Definition objfunc (base : Driver) (dv_dict : dict value)
    : M world (dict value * Z) :=
  fun w =>
    let fr := {| fail := 1; func_dict := [] |} in
    let metadata_ := metadata (self w) in
    let system := self_root base in
    let comm_ := comm system in
    let iproc := comm_rank comm_ in
    let nproc := comm_size comm_ in
    match try_except isinstance_Exception
            (objfunc_try base metadata_ dv_dict) objfunc_except (fr, w) with
    | (Ok _, (fr', w')) => (Ok (func_dict fr', fail fr'), w')
    | (Raise e, (_, w')) => (Raise e, w')
    end.

(** ** The gradient callback *)

Record gradfunc_frame := { gfail : Z; sens_dict : sens_dict_t }.

(** The body of the [try] of [gradfunc] (lines 335-341). *)
Definition gradfunc_try (dv_dict func_dict_ : dict value)
    : M (gradfunc_frame * world) unit :=
  p <- on_snd (getattr_or
         "'NoneType' object has no attribute 'calc_gradient'" _problem) ;;
  q <- on_snd (getattr quantities) ;;
  sd <- on_snd (call_calc_gradient p (keys dv_dict) (Names q) "dict") ;;
  modify (fun fs => ({| gfail := gfail (fst fs); sens_dict := sd |}, snd fs)) ;;;
  modify (fun fs => ({| gfail := 0; sens_dict := sens_dict (fst fs) |}, snd fs)).

(** The handler of [gradfunc] (lines 343-351). *)
Definition gradfunc_except (msg : exn) : M (gradfunc_frame * world) unit :=
  on_snd (print ("Exception: " ++ str_exn msg)) ;;;
  on_snd (print rule70) ;;;
  on_snd (log (EvPrintExc msg)) ;;;
  on_snd (print rule70).

(** [pyOptSparseDriver.gradfunc]. *)
Definition gradfunc (dv_dict func_dict_ : dict value)
    : M world (sens_dict_t * Z) :=
  fun w =>
    let fr := {| gfail := 1; sens_dict := [] |} in
    match try_except isinstance_Exception
            (gradfunc_try dv_dict func_dict_) gradfunc_except (fr, w) with
    | (Ok _, (fr', w')) => (Ok (sens_dict fr', gfail fr'), w')
    | (Raise e, (_, w')) => (Raise e, w')
    end.

(** ** The run orchestrator *)

(** A call on the [Optimization] object: logged, and kept in the object. *)
Definition reg (c : reg_call) (opt_prob : Optimization)
    : M world Optimization :=
  log (EvOptProb c) ;;;
  ret (register c opt_prob).

(** [rel.relevant[name]]. *)
Definition relevant_of (sys : System) (name : string)
    : M world (gset string) :=
  match relevant sys !! name with
  | Some s => ret s
  | None => raise (Exn KeyError name)
  end.

(** Lines 110-113: one variable group per design variable. *)
Definition add_var_groups (base : Driver) (param_vals : dict value)
    (opt_prob : Optimization) : M world Optimization :=
  for_fold (get_param_metadata base) opt_prob (fun op nm =>
    v <- getitem param_vals (fst nm) ;;
    reg (addVarGroup (fst nm) (pm_size (snd nm)) "c" v
           (pm_low (snd nm)) (pm_high (snd nm))) op).

(** Lines 135-148: the equality constraints. *)
Definition add_eq_con (base : Driver) (rel : System)
    (param_list_ : list string) (op : Optimization) (name : string)
    : M world Optimization :=
  meta <- getitem (get_constraint_metadata base) name ;;
  let size := cm_size meta in
  let upper := cm_equals meta in
  let lower := upper in
  rs <- relevant_of rel name ;;
  let wrt := rs ∩ list_to_set param_list_ in
  if cm_linear meta then
    lj <- getattr lin_jacs ;;
    jac <- getitem lj name ;;
    reg (addConGroup name size lower upper true wrt (Some jac)) op
  else
    reg (addConGroup name size lower upper false wrt None) op.

(** Lines 153-169: the inequality constraints. *)
Definition add_ineq_con (base : Driver) (rel : System)
    (param_list_ : list string) (op : Optimization) (name : string)
    : M world Optimization :=
  meta <- getitem (get_constraint_metadata base) name ;;
  let size := cm_size meta in
  let lower := cm_lower meta in
  let upper := cm_upper meta in
  rs <- relevant_of rel name ;;
  let wrt := rs ∩ list_to_set param_list_ in
  if cm_linear meta then
    lj <- getattr lin_jacs ;;
    jac <- getitem lj name ;;
    reg (addConGroup name size lower upper true wrt (Some jac)) op
  else
    reg (addConGroup name size lower upper false wrt None) op.

(** Lines 93-102: metadata setup and the initial run. *)
Definition initial_run (problem : Problem) : M world unit :=
  setattr (set_pyopt_solution None) ;;;
  (* Metadata Setup *)
  name <- getattr (fun d => optimizer (options d)) ;;
  setattr (set_metadata (Some (create_local_meta name))) ;;;
  setattr (set_iter_count (Some 0)) ;;;
  md0 <- getattr metadata ;;
  ic <- getattr_or "iter_count" iter_count ;;
  md <- update_local_meta md0 [ic] ;;
  setattr (set_metadata (Some md)) ;;;
  (* Initial Run *)
  md <- getattr metadata ;;
  call_solve_nonlinear (root problem) md.

(** Lines 104-169: the registry. *)
Definition build_registry (base : Driver) (problem : Problem)
    : M world (Optimization * list string) :=
  let rel := root problem in
  ttl <- getattr (fun d => title (options d)) ;;
  let opt_prob := Optimization_new ttl in
  (* Add all parameters *)
  let param_meta_ := get_param_metadata base in
  let param_list_ := keys param_meta_ in
  setattr (set_param_list (Some param_list_)) ;;;
  param_vals <- read_model (get_params base) ;;
  opt_prob <- add_var_groups base param_vals opt_prob ;;
  opt_prob <- reg finalizeDesignVariables opt_prob ;;
  (* Add all objectives *)
  objs <- read_model (get_objectives base) ;;
  setattr (set_quantities (keys objs)) ;;;
  opt_prob <- for_fold (keys objs) opt_prob
                (fun op name => reg (addObj name) op) ;;
  (* Calculate and save gradient for any linear constraints. *)
  lcons_d <- read_model (get_constraints base ctype_all lintype_linear) ;;
  let lcons := values lcons_d in
  (if (0 <? Z.of_nat (length lcons))%Z then
     lj <- call_calc_gradient problem param_list_ (Values lcons) "dict" ;;
     setattr (set_lin_jacs lj)
   else ret tt) ;;;
  (* Add all equality constraints *)
  econs <- read_model (get_constraints base ctype_eq lintype_nonlinear) ;;
  q <- getattr quantities ;;
  setattr (set_quantities (q ++ keys econs)) ;;;
  opt_prob <- for_fold (keys econs) opt_prob
                (add_eq_con base rel param_list_) ;;
  (* Add all inequality constraints *)
  incons <- read_model (get_constraints base ctype_ineq lintype_nonlinear) ;;
  q <- getattr quantities ;;
  setattr (set_quantities (q ++ keys incons)) ;;;
  opt_prob <- for_fold (keys incons) opt_prob
                (add_ineq_con base rel param_list_) ;;
  ret (opt_prob, param_list_).

(** Lines 93-169: what [run] does before it looks for the optimizer. *)
Definition configure (base : Driver) (problem : Problem)
    : M world (Optimization * list string) :=
  initial_run problem ;;;
  build_registry base problem.

(** Lines 171-185: import the optimizer, instantiate it, set its options.
    The instance is the class together with the options it was given.
    The name that line 174 puts into the import statement is the option
    ['optimizer'], one of the values it is declared with (line 61), hence
    an identifier; [pyoptsparse] is the package, as the table of the
    classes it offers. *)
Definition instantiate (pyoptsparse : string -> option Optimizer)
    : M world (Optimizer * dict value) :=
  optimizer_ <- getattr (fun d => optimizer (options d)) ;;
  optname <- try_except isinstance_ImportError
    (match pyoptsparse optimizer_ with
     | Some c => ret c
     | None => raise (Exn ImportError ("cannot import name " ++ optimizer_))
     end)
    (fun _ =>
       let msg := "Optimizer " ++ optimizer_
                  ++ " is not available in this installation." in
       raise (Exn ImportError msg)) ;;
  settings <- getattr opt_settings ;;
  opts <- for_fold settings [] (fun o ov =>
            log (EvSetOption (fst ov) (snd ov)) ;;;
            ret (dict_set o (fst ov) (snd ov))) ;;
  ret (optname, opts).

(** The engine at work: each callback it asks for is run on the heap.  An
    engine started with [sens='FD'] holds no gradient callback; calling
    its [sens] argument is calling a string. *)
Fixpoint call_engine (base : Driver) (sens : sens_arg) (e : engine)
    : M world Solution :=
  match e with
  | Returns sol => ret sol
  | Raises ex => raise ex
  | CallObjfunc dv k =>
      r <- objfunc base dv ;;
      call_engine base sens (k r)
  | CallGradfunc dv fd k =>
      match sens with
      | sens_gradfunc =>
          r <- gradfunc dv fd ;;
          call_engine base sens (k r)
      | sens_FD _ => raise (Exn TypeError "'str' object is not callable")
      end
  end.

(** Lines 187-198: hand control to the optimizer. *)
Definition solve (base : Driver) (problem : Problem)
    (opt : Optimizer * dict value) (opt_prob : Optimization)
    : M world Solution :=
  setattr (set_problem (Some problem)) ;;;
  diff <- getattr (fun d => pyopt_diff (options d)) ;;
  sol <- (if diff then
            fd_step <- getitem (fd_options (root problem)) "step_size" ;;
            log (EvOptimizer opt_prob (sens_FD fd_step)) ;;;
            call_engine base (sens_FD fd_step)
              (opt_run (fst opt) (snd opt) opt_prob (sens_FD fd_step))
          else
            log (EvOptimizer opt_prob sens_gradfunc) ;;;
            call_engine base sens_gradfunc
              (opt_run (fst opt) (snd opt) opt_prob sens_gradfunc)) ;;
  setattr (set_problem None) ;;;
  ret sol.

(** [isinstance(e, KeyError)]. *)
Definition isinstance_KeyError (e : exn) : bool :=
  match exn_class e with
  | KeyError => true
  | _ => false
  end.

(** Lines 215-221: the exit-status classification. *)
Definition classify_exit (sol : Solution) : M world unit :=
  try_except isinstance_KeyError
    (exit_status <- match optInform sol !! "value" with
                    | Some v => ret v
                    | None => raise (Exn KeyError "value")
                    end ;;
     setattr (set_exit_flag 1) ;;;
     if (2 <? exit_status)%Z then setattr (set_exit_flag 0) else ret tt)
    (fun _ => setattr (set_exit_flag 0)).

(** Lines 200-221: print, write the optimum back, solve again, classify. *)
Definition finalize (base : Driver) (param_list_ : list string)
    (sol : Solution) : M world unit :=
  pr <- getattr (fun d => print_results (options d)) ;;
  (if pr then log (EvPrintSolution sol) else ret tt) ;;;
  let dv_dict := getDVs sol in
  for_each param_list_ (fun name =>
    val <- getitem dv_dict name ;;
    call_set_param base name val) ;;;
  md <- getattr metadata ;;
  call_solve_nonlinear (self_root base) md ;;;
  setattr (set_pyopt_solution (Some sol)) ;;;
  classify_exit sol.

(** [pyOptSparseDriver.run]. *)
Definition run (base : Driver) (pyoptsparse : string -> option Optimizer)
    (problem : Problem) : M world unit :=
  cfg <- configure base problem ;;
  opt <- instantiate pyoptsparse ;;
  sol <- solve base problem opt (fst cfg) ;;
  finalize base (snd cfg) sol.

(** ** Requesting an optimizer *)

(** Line 61: the values the option ['optimizer'] is declared with,
    [values=['SNOPT']] ("only SNOPT is supported right now"). *)
Definition optimizer_values : list string := ["SNOPT"].

(** Modelled from the spec: [driver.options['optimizer'] = name].  The
    options dictionary belongs to the base class and is not part of these
    sources; only the declaration of line 61 is.  The specification has
    the engine be one of a supported list (section 6), and a request
    outside that list be an UnsupportedOptimizer error that goes to the
    caller (section 7): the request is refused and the option keeps its
    value. *)
Definition set_optimizer (name : string) : M world unit :=
  if decide (name ∈ optimizer_values)
  then setattr (set_option_optimizer name)
  else raise (Exn UnsupportedOptimizer name).

(** What the owner of a driver asks of it, once it is constructed and
    attached to its root: an optimizer, a run, or (as the engine does
    during a run) one of the two callbacks. *)
Inductive request :=
| SetOptimizer (name : string)
| Run (pyoptsparse : string -> option Optimizer) (problem : Problem)
| Objfunc (dv_dict : dict value)
| Gradfunc (dv_dict : dict value) (func_dict_ : dict value).

Definition serve (base : Driver) (r : request) : M world unit :=
  match r with
  | SetOptimizer name => set_optimizer name
  | Run pyoptsparse problem => run base pyoptsparse problem
  | Objfunc dv_dict => _ <- objfunc base dv_dict ;; ret tt
  | Gradfunc dv_dict func_dict_ => _ <- gradfunc dv_dict func_dict_ ;; ret tt
  end.

(** A session: the requests are served one after the other; a request
    that raises leaves the heap as it was at the raise, and the session
    goes on. *)
Definition session (base : Driver) (rs : list request) (w : world)
    : world :=
  fold_left (fun w r => snd (serve base r w)) rs w.

End Session.

Arguments unknown_list : clear implicits.
Arguments sens_dict_t : clear implicits.
Arguments System : clear implicits.
Arguments Problem : clear implicits.
Arguments param_meta : clear implicits.
Arguments con_meta_t : clear implicits.
Arguments Driver : clear implicits.
Arguments Solution : clear implicits.
Arguments reg_call : clear implicits.
Arguments Optimization : clear implicits.
Arguments sens_arg : clear implicits.
Arguments engine : clear implicits.
Arguments Optimizer : clear implicits.
Arguments pyOptSparseDriver : clear implicits.
Arguments event : clear implicits.
Arguments world : clear implicits.
Arguments request : clear implicits.
Arguments objfunc_frame : clear implicits.
Arguments gradfunc_frame : clear implicits.

(** ** Observations on the log *)

Section Observations.

Context {value Model : Type}.

Definition is_solve (e : event value) : bool :=
  match e with
  | EvSolveNonlinear _ => true
  | _ => false
  end.

(** How many times [solve_nonlinear] was called. *)
Definition count_solves (t : list (event value)) : nat :=
  length (List.filter is_solve t).

(** The arguments of the calls of [calc_gradient], in order. *)
Fixpoint calc_gradient_calls (t : list (event value))
    : list (list string * unknown_list value * string) :=
  match t with
  | [] => []
  | EvCalcGradient i u f :: t' => (i, u, f) :: calc_gradient_calls t'
  | _ :: t' => calc_gradient_calls t'
  end.

(** Whether the optimizer engine was started. *)
Definition is_optimizer_call (e : event value) : bool :=
  match e with
  | EvOptimizer _ _ => true
  | _ => false
  end.

Definition engine_started (t : list (event value)) : bool :=
  existsb is_optimizer_call t.

(** The names registered as objectives, as constraint groups and as
    design-variable groups, in registration order. *)
Fixpoint registered_objs (cs : list (reg_call value)) : list string :=
  match cs with
  | [] => []
  | addObj n :: cs' => n :: registered_objs cs'
  | _ :: cs' => registered_objs cs'
  end.

Fixpoint registered_cons (cs : list (reg_call value)) : list string :=
  match cs with
  | [] => []
  | addConGroup n _ _ _ _ _ _ :: cs' => n :: registered_cons cs'
  | _ :: cs' => registered_cons cs'
  end.

Fixpoint registered_vars (cs : list (reg_call value)) : list string :=
  match cs with
  | [] => []
  | addVarGroup n _ _ _ _ _ :: cs' => n :: registered_vars cs'
  | _ :: cs' => registered_vars cs'
  end.

(** The traceback a callback prints when it catches [msg]. *)
Definition diagnostics (msg : exn) : list (event value) :=
  [EvPrint ("Exception: " ++ str_exn msg); EvPrint rule70;
   EvPrintExc msg; EvPrint rule70].

Definition with_trace (t : list (event value)) (w : world value Model)
    : world value Model :=
  {| self := self w; model := model w; trace := trace w ++ t |}.

(** The [try] bodies of the callbacks, started on their fresh locals. *)
Definition objfunc_body (base : Driver value Model) (dv_dict : dict value)
    (w : world value Model) :=
  objfunc_try base (metadata (self w)) dv_dict
    ({| fail := 1; func_dict := [] |}, w).

Definition gradfunc_body (dv_dict func_dict_ : dict value)
    (w : world value Model) :=
  gradfunc_try dv_dict func_dict_ ({| gfail := 1; sens_dict := [] |}, w).

(** The variable group [run] registers for a design variable. *)
Definition var_group_for (nm : string * param_meta value)
    (c : reg_call value) : Prop :=
  exists v,
    c = addVarGroup (fst nm) (pm_size (snd nm)) "c" v
          (pm_low (snd nm)) (pm_high (snd nm)).

(** The constraint group [run] registers for the constraint [name], the
    design variables registered being [pl]. *)
Definition con_group_for (base : Driver value Model)
    (problem : Problem value Model) (pl : list string) (name : string)
    (c : reg_call value) : Prop :=
  exists meta lo up jac rs,
    dict_get (get_constraint_metadata base) name = Some meta
    /\ relevant (root problem) !! name = Some rs
    /\ c = addConGroup name (cm_size meta) lo up (cm_linear meta)
             (rs ∩ list_to_set pl) jac.

(** A logged call that asks for gradients of named responses asks for the
    responses [q]. *)
Definition asks_for (q : list string) (e : event value) : Prop :=
  match e with
  | EvCalcGradient _ (Names l) _ => l = q
  | _ => True
  end.

(** The heap while the engine is at work: the response list is [q], and
    every gradient asked by name since the log was [t0] was asked for
    [q]. *)
Definition during_run (q : list string) (t0 : list (event value))
    (w : world value Model) : Prop :=
  quantities (self w) = q
  /\ exists t, trace w = (t0 ++ t)%list /\ Forall (asks_for q) t.

(** A logged call that applies to the model the value [d] has for the
    design variable [name]. *)
Definition sets_param (d : dict value) (name : string) (ev : event value)
    : Prop :=
  exists v, dict_get d name = Some v /\ ev = EvSetParam name v.

(** [for name, v in items: d[name] = v], started from [d]. *)
Definition store_all (items : dict value) (d : dict value) : dict value :=
  fold_left (fun acc nv => dict_set acc (fst nv) (snd nv)) items d.

(** The variable group [run] registers for a design variable, the
    current values of the design variables being [params]. *)
Definition var_group_of (params : dict value)
    (nm : string * param_meta value) (c : reg_call value) : Prop :=
  exists v,
    dict_get params (fst nm) = Some v
    /\ c = addVarGroup (fst nm) (pm_size (snd nm)) "c" v
             (pm_low (snd nm)) (pm_high (snd nm)).

(** The constraint group the loop over the equality constraints registers
    for [name], and the one the loop over the inequality constraints
    registers. *)
Definition eq_group_of (base : Driver value Model)
    (problem : Problem value Model) (pl : list string) (name : string)
    (c : reg_call value) : Prop :=
  exists meta rs jac,
    dict_get (get_constraint_metadata base) name = Some meta
    /\ relevant (root problem) !! name = Some rs
    /\ c = addConGroup name (cm_size meta) (cm_equals meta) (cm_equals meta)
             (cm_linear meta) (rs ∩ list_to_set pl) jac
    /\ (cm_linear meta = false -> jac = None).

Definition ineq_group_of (base : Driver value Model)
    (problem : Problem value Model) (pl : list string) (name : string)
    (c : reg_call value) : Prop :=
  exists meta rs jac,
    dict_get (get_constraint_metadata base) name = Some meta
    /\ relevant (root problem) !! name = Some rs
    /\ c = addConGroup name (cm_size meta) (cm_lower meta) (cm_upper meta)
             (cm_linear meta) (rs ∩ list_to_set pl) jac
    /\ (cm_linear meta = false -> jac = None).

(** The engine's convention for a good status: [exit_status > 2] is bad. *)
Definition is_success (exit_status : Z) : bool := negb (2 <? exit_status)%Z.

End Observations.

(** ** A small session to run the definitions on

    One design variable [x], the objective [y = x*x + 2*x], a linear
    equality constraint, a nonlinear equality constraint and a nonlinear
    inequality constraint; the model state is the current value of [x]. *)
Module Example.

Definition sys : System Z Z := {|
  comm := {| comm_rank := 0; comm_size := 1 |};
  relevant := {[ "y" := {[ "x" ]};
                 "c_lin" := {[ "x" ]};
                 "c_eq" := {[ "x"; "z" ]};
                 "c_in" := {[ "x" ]} ]};
  fd_options := [("step_size", 1)];
  solve_nonlinear := fun _ m => (Ok tt, m)
|}.

Definition problem : Problem Z Z := {|
  root := sys;
  calc_gradient := fun indep unknowns _ m =>
    match unknowns with
    | Names l =>
        (Ok (map (fun r => (r, map (fun dv => (dv, 2 * m + 2)) indep)) l), m)
    | Values _ => (Ok [], m)
    end
|}.

Definition con_meta : dict (con_meta_t Z) :=
  [("c_lin", {| cm_size := 1; cm_equals := Some 0; cm_lower := None;
                cm_upper := None; cm_linear := true |});
   ("c_eq", {| cm_size := 1; cm_equals := Some 3; cm_lower := None;
               cm_upper := None; cm_linear := false |});
   ("c_in", {| cm_size := 1; cm_equals := None; cm_lower := Some (-5);
               cm_upper := Some 50; cm_linear := false |})].

Definition base : Driver Z Z := {|
  self_root := sys;
  get_param_metadata :=
    [("x", {| pm_size := 1; pm_low := Some (-10); pm_high := Some 10 |})];
  get_params := fun m => Ok [("x", m)];
  get_objectives := fun m => Ok [("y", m * m + 2 * m)];
  get_constraint_metadata := con_meta;
  constraint_value := fun n m =>
    if String.eqb n "c_lin" then Ok (2 * m) else Ok (m * m);
  set_param := fun _ v _ => (Ok tt, v);
  record := fun _ m => (Ok tt, m)
|}.

(** The same model, interrupted from the keyboard during its solve. *)
Definition interrupted_sys : System Z Z := {|
  comm := comm sys;
  relevant := relevant sys;
  fd_options := fd_options sys;
  solve_nonlinear := fun _ m => (Raise (Exn KeyboardInterrupt ""), m)
|}.

Definition interrupted_base : Driver Z Z := {|
  self_root := interrupted_sys;
  get_param_metadata := get_param_metadata base;
  get_params := get_params base;
  get_objectives := get_objectives base;
  get_constraint_metadata := get_constraint_metadata base;
  constraint_value := constraint_value base;
  set_param := set_param base;
  record := record base
|}.

(** The same model, whose solve diverges with an ordinary exception. *)
Definition diverging_sys : System Z Z := {|
  comm := comm sys;
  relevant := relevant sys;
  fd_options := fd_options sys;
  solve_nonlinear := fun _ m => (Raise (Exn RuntimeError "diverged"), m)
|}.

Definition diverging_base : Driver Z Z := {|
  self_root := diverging_sys;
  get_param_metadata := get_param_metadata base;
  get_params := get_params base;
  get_objectives := get_objectives base;
  get_constraint_metadata := get_constraint_metadata base;
  constraint_value := constraint_value base;
  set_param := set_param base;
  record := record base
|}.

(** The same model, whose constraints cannot be read. *)
Definition unreadable_base : Driver Z Z := {|
  self_root := sys;
  get_param_metadata := get_param_metadata base;
  get_params := get_params base;
  get_objectives := get_objectives base;
  get_constraint_metadata := get_constraint_metadata base;
  constraint_value := fun _ _ => Raise (Exn RuntimeError "no constraint");
  set_param := set_param base;
  record := record base
|}.

(** The same model, with a recorder that fails. *)
Definition unrecordable_base : Driver Z Z := {|
  self_root := sys;
  get_param_metadata := get_param_metadata base;
  get_params := get_params base;
  get_objectives := get_objectives base;
  get_constraint_metadata := get_constraint_metadata base;
  constraint_value := constraint_value base;
  set_param := set_param base;
  record := fun _ m => (Raise (Exn RuntimeError "no recorder"), m)
|}.

(** A problem whose gradient computation is interrupted from the
    keyboard. *)
Definition interrupted_problem : Problem Z Z := {|
  root := sys;
  calc_gradient := fun _ _ _ m => (Raise (Exn KeyboardInterrupt ""), m)
|}.

(** A freshly constructed driver next to a model at [x = 1]. *)
Definition w0 : world Z Z := {| self := init; model := 1; trace := [] |}.

(** An engine that evaluates [x = 2], asks for the gradient there, and
    reports [x = -1] with a good status. *)
Definition sol : Solution Z :=
  {| getDVs := [("x", -1)]; optInform := {[ "value" := 1 ]} |}.

Definition snopt : Optimizer Z := {|
  opt_run := fun _ _ _ =>
    CallObjfunc [("x", 2)] (fun r =>
      CallGradfunc [("x", 2)] (fst r) (fun _ => Returns sol))
|}.

Definition pyoptsparse (name : string) : option (Optimizer Z) :=
  if String.eqb name "SNOPT" then Some snopt else None.

(** An installation without any optimizer. *)
Definition no_optimizer (name : string) : option (Optimizer Z) := None.

(** The heap once the registry is built, and the registry. *)
Definition w_configured : world Z Z := snd (configure base problem w0).

Definition registry : Optimization Z * list string :=
  match fst (configure base problem w0) with
  | Ok cfg => cfg
  | Raise _ => (Optimization_new "", [])
  end.

(** The heap while the engine is at work: [_problem] is set. *)
Definition w_solving : world Z Z :=
  {| self := set_problem (Some problem) (self w_configured);
     model := model w_configured; trace := trace w_configured |}.

(** The same heap, at work on the interrupted problem. *)
Definition w_interrupted : world Z Z :=
  {| self := set_problem (Some interrupted_problem) (self w_configured);
     model := model w_configured; trace := trace w_configured |}.

(** An optimizer whose engine fails as soon as it is started. *)
Definition broken : Optimizer Z := {|
  opt_run := fun _ _ _ => Raises (Exn RuntimeError "engine failure")
|}.

Definition broken_pyoptsparse (name : string) : option (Optimizer Z) :=
  Some broken.

(** A driver set up for the engine's own finite differences, with one
    optimizer setting and without the final print. *)
Definition w_fd : world Z Z := {|
  self := {|
    options := {| optimizer := "SNOPT";
                  title := "Optimization using pyOpt_sparse";
                  print_results := false;
                  pyopt_diff := true;
                  option_exit_flag := 0 |};
    opt_settings := [("Major iterations limit", 100)];
    pyopt_solution := None;
    lin_jacs := [];
    quantities := [];
    metadata := None;
    exit_flag := 0;
    _problem := None;
    iter_count := None;
    param_list := None
  |};
  model := 1;
  trace := []
|}.

(** The heap once the initial solve is made. *)
Definition w_solved : world Z Z := snd (initial_run problem w0).

End Example.

(** ** The complex-step Jacobian provider *)
Module ComplexStep.

Local Open Scope Q_scope.

(** A complex number over the rationals: rounding is not modelled. *)
Record complex := Cx { re : Q; im : Q }.

Definition cadd (a b : complex) : complex :=
  Cx (re a + re b) (im a + im b).

Definition csub (a b : complex) : complex :=
  Cx (re a - re b) (im a - im b).

Definition cmul (a b : complex) : complex :=
  Cx (re a * re b - im a * im b) (re a * im b + im a * re b).

(** The right-hand sides an [ExecComp] is given in the tests:
    arithmetic on constants and on entries [x[i]] of the input array. *)
Inductive expr :=
| Const (c : Q)
| Index (i : nat)
| Add (a b : expr)
| Sub (a b : expr)
| Mul (a b : expr).

(** Evaluation with complex arithmetic; [None] is an [IndexError]. *)
Fixpoint eval (x : list complex) (e : expr) : option complex :=
  match e with
  | Const c => Some (Cx c 0)
  | Index i => nth_error x i
  | Add a b =>
      match eval x a, eval x b with
      | Some u, Some v => Some (cadd u v)
      | _, _ => None
      end
  | Sub a b =>
      match eval x a, eval x b with
      | Some u, Some v => Some (csub u v)
      | _, _ => None
      end
  | Mul a b =>
      match eval x a, eval x b with
      | Some u, Some v => Some (cmul u v)
      | _, _ => None
      end
  end.

(** The input array with its entry [j], and only that one, perturbed by
    [h] along the imaginary axis. *)
Fixpoint perturb (x : list Q) (j : nat) (h : Q) : list complex :=
  match x, j with
  | [], _ => []
  | xi :: x', O => Cx xi h :: map (fun q => Cx q 0) x'
  | xi :: x', S j' => Cx xi 0 :: perturb x' j' h
  end.

(** Modelled from the spec: the Jacobian method of [ExecComp] is not part
    of the sources, only its test is.  Section 4.1 of the spec: for each
    scalar entry of the input, perturb that single entry by [h*i],
    evaluate the expression with complex arithmetic, and set the Jacobian
    entry to [Im(output)/h]. *)
Definition jacobian_entry (e : expr) (x : list Q) (h : Q) (j : nat)
    : option Q :=
  match eval (perturb x j h) e with
  | Some y => Some (im y / h)
  | None => None
  end.

(** One row per output expression, one column per input entry. *)
Definition jacobian (outputs : list expr) (x : list Q) (h : Q)
    : list (list (option Q)) :=
  map (fun e => map (jacobian_entry e x h) (seq 0 (length x))) outputs.

(** [y[0] = 2.0*x[0] + 7.0*x[1]] and [y[1] = 5.0*x[0] - 3.0*x[1]],
    the component of [test_simple_array_model]. *)
Definition y0 : expr := Add (Mul (Const 2) (Index 0)) (Mul (Const 7) (Index 1)).
Definition y1 : expr := Sub (Mul (Const 5) (Index 0)) (Mul (Const 3) (Index 1)).

(** Entrywise equality of a computed Jacobian with a matrix of rationals. *)
Definition entry_eq (o : option Q) (q : Q) : Prop :=
  match o with
  | Some p => p == q
  | None => False
  end.

Definition matrix_eq (J : list (list (option Q))) (A : list (list Q)) : Prop :=
  Forall2 (Forall2 entry_eq) J A.

(** The perturbation step of the spec, [1e-40]. *)
Definition step : Q := 1 # (10 ^ 40).

(** The value of an expression at a real point; an entry out of range
    reads as 0 here, and [in_range] below excludes it. *)
Fixpoint value_at (x : list Q) (e : expr) : Q :=
  match e with
  | Const c => c
  | Index i => nth i x 0
  | Add a b => value_at x a + value_at x b
  | Sub a b => value_at x a - value_at x b
  | Mul a b => value_at x a * value_at x b
  end.

(** The partial derivative of an expression with respect to [x[j]], by
    the rules of differentiation. *)
Fixpoint deriv (x : list Q) (e : expr) (j : nat) : Q :=
  match e with
  | Const _ => 0
  | Index i => if Nat.eqb i j then 1 else 0
  | Add a b => deriv x a j + deriv x b j
  | Sub a b => deriv x a j - deriv x b j
  | Mul a b => deriv x a j * value_at x b + value_at x a * deriv x b j
  end.

(** The degree of an expression as a polynomial in the entries of [x],
    counted on its syntax: a constant has degree 0, an entry degree 1, a
    sum or a difference the larger of the two degrees, a product their
    sum.  The polynomial the expression denotes has at most this
    degree. *)
Fixpoint degree (e : expr) : nat :=
  match e with
  | Const _ => 0
  | Index _ => 1
  | Add a b | Sub a b => Nat.max (degree a) (degree b)
  | Mul a b => degree a + degree b
  end.

(** Every index of the expression is an entry of an array of length [n]. *)
Fixpoint in_range (n : nat) (e : expr) : bool :=
  match e with
  | Const _ => true
  | Index i => Nat.ltb i n
  | Add a b | Sub a b | Mul a b => in_range n a && in_range n b
  end.

(** [y = x*x + x*2.0], the component of [test_complex_step2]. *)
Definition square_plus_double : expr :=
  Add (Mul (Index 0) (Index 0)) (Mul (Index 0) (Const 2)).

(** [(x[0]*x[1])*2.0 - 3.0*(x[1]*x[1])]: products of three factors, of
    degree two all the same. *)
Definition scaled_products : expr :=
  Sub (Mul (Mul (Index 0) (Index 1)) (Const 2))
      (Mul (Const 3) (Mul (Index 1) (Index 1))).

End ComplexStep.

(** * Properties *)

(** ** Rules for computations *)

Section Rules.

Context {St : Type}.

Lemma bind_Ok_inv {A B} (m : M St A) (k : A -> M St B) s b s' :
  bind m k s = (Ok b, s') ->
  exists a s1, m s = (Ok a, s1) /\ k a s1 = (Ok b, s').
Proof.
  unfold bind. destruct (m s) as [[a | e] s1]; [eauto | discriminate].
Qed.

Lemma hoare_bind {A B} (P : St -> Prop) (R : A -> St -> Prop)
    (Q : res B -> St -> Prop) (m : M St A) (k : A -> M St B) :
  hoare P m (fun r s => match r with
                        | Ok a => R a s
                        | Raise e => Q (Raise e) s
                        end) ->
  (forall a, hoare (R a) (k a) Q) ->
  hoare P (bind m k) Q.
Proof.
  unfold hoare, bind. intros Hm Hk s HP. specialize (Hm s HP).
  destruct (m s) as [[a | e] s1]; cbn in *; [apply Hk |]; assumption.
Qed.

Lemma preserved_ret {A} (P : St -> Prop) (a : A) : preserved P (ret a).
Proof. intros s HP. exact HP. Qed.

Lemma preserved_raise {A} (P : St -> Prop) e : preserved P (@raise St A e).
Proof. intros s HP. exact HP. Qed.

Lemma preserved_gets {A} (P : St -> Prop) (f : St -> A) :
  preserved P (gets f).
Proof. intros s HP. exact HP. Qed.

Lemma preserved_modify (P : St -> Prop) (f : St -> St) :
  (forall s, P s -> P (f s)) -> preserved P (modify f).
Proof. intros H s HP. apply H, HP. Qed.

Lemma preserved_bind {A B} (P : St -> Prop) (m : M St A) (k : A -> M St B) :
  preserved P m -> (forall a, preserved P (k a)) -> preserved P (bind m k).
Proof.
  intros Hm Hk. apply hoare_bind with (R := fun _ => P).
  - intros s HP. specialize (Hm s HP). destruct (fst (m s)); exact Hm.
  - exact Hk.
Qed.

Lemma preserved_try_except {A} (P : St -> Prop) c (body : M St A) handler :
  preserved P body -> (forall e, preserved P (handler e)) ->
  preserved P (try_except c body handler).
Proof.
  unfold preserved, hoare, try_except. intros Hb Hh s HP.
  specialize (Hb s HP). destruct (body s) as [[a | e] s1]; cbn in *; auto.
  destruct (c e); cbn; auto.
Qed.

Lemma preserved_for_each {A} (P : St -> Prop) (l : list A) f :
  (forall x, preserved P (f x)) -> preserved P (for_each l f).
Proof.
  intros Hf. induction l as [| x l IH]; cbn.
  - apply preserved_ret.
  - apply preserved_bind; auto.
Qed.

Lemma preserved_for_fold {A B} (P : St -> Prop) (l : list A) (acc : B) f :
  (forall b x, preserved P (f b x)) -> preserved P (for_fold l acc f).
Proof.
  intros Hf. revert acc. induction l as [| x l IH]; intros acc; cbn.
  - apply preserved_ret.
  - apply preserved_bind; auto.
Qed.

Lemma preserved_getitem {V} (P : St -> Prop) (d : dict V) k :
  preserved P (getitem d k).
Proof.
  unfold getitem. destruct (dict_get d k);
    [apply preserved_ret | apply preserved_raise].
Qed.

Lemma preserved_update_local_meta (P : St -> Prop) md it :
  preserved P (update_local_meta md it).
Proof.
  unfold update_local_meta. destruct md;
    [apply preserved_ret | apply preserved_raise].
Qed.

Lemma preserved_on_snd_frame {F A} (Q : F * St -> Prop) (m : M St A) :
  (forall f, preserved (fun s => Q (f, s)) m) -> preserved Q (on_snd m).
Proof.
  unfold preserved, hoare, on_snd. intros Hm [f s] HQ. cbn in *.
  specialize (Hm f s HQ). destruct (m s); exact Hm.
Qed.

End Rules.

Section Properties.

Context {value Model : Type}.

Implicit Types (w : world value Model) (base : Driver value Model).
Implicit Types (dv_dict fdict : dict value).

(** ** The gradient callback, step by step *)

Lemma with_trace_4 w (a b c d : event value) :
  {| self := self w; model := model w;
     trace := (((trace w ++ [a]) ++ [b]) ++ [c]) ++ [d] |}
  = with_trace [a; b; c; d] w.
Proof.
  unfold with_trace. f_equal. rewrite <- !app_assoc. reflexivity.
Qed.

(** Without a problem, the attribute access fails before anything else. *)
Lemma gradfunc_body_None dv_dict fdict w :
  _problem (self w) = None ->
  gradfunc_body dv_dict fdict w
  = (Raise (Exn AttributeError
              "'NoneType' object has no attribute 'calc_gradient'"),
     ({| gfail := 1; sens_dict := [] |}, w)).
Proof.
  intros H. unfold gradfunc_body, gradfunc_try, bind, on_snd, getattr_or,
    getattr, bind, gets. cbn. rewrite H. cbn. destruct w; reflexivity.
Qed.

(** With a problem, the body is one logged call of [calc_gradient]. *)
Lemma gradfunc_body_Some dv_dict fdict w p :
  _problem (self w) = Some p ->
  gradfunc_body dv_dict fdict w
  = let w1 := with_trace
                [EvCalcGradient (keys dv_dict) (Names (quantities (self w)))
                   "dict"] w in
    match calc_gradient p (keys dv_dict) (Names (quantities (self w)))
            "dict" (model w) with
    | (Ok sd, m') =>
        (Ok tt, ({| gfail := 0; sens_dict := sd |},
                 {| self := self w; model := m'; trace := trace w1 |}))
    | (Raise e, m') =>
        (Raise e, ({| gfail := 1; sens_dict := [] |},
                   {| self := self w; model := m'; trace := trace w1 |}))
    end.
Proof.
  intros H. unfold gradfunc_body, gradfunc_try, bind, on_snd, getattr_or,
    getattr, bind, gets, call_calc_gradient, bind, log, modify, on_model.
  cbn. rewrite H. cbn.
  destruct (calc_gradient p _ _ _ _) as [[sd | e] m']; reflexivity.
Qed.

Lemma gradfunc_unfold dv_dict fdict w :
  gradfunc dv_dict fdict w
  = match gradfunc_body dv_dict fdict w with
    | (Ok _, (fr, w1)) => (Ok (sens_dict fr, gfail fr), w1)
    | (Raise e, (fr, w1)) =>
        if isinstance_Exception e
        then (Ok (sens_dict fr, gfail fr), with_trace (diagnostics e) w1)
        else (Raise e, w1)
    end.
Proof.
  unfold gradfunc, gradfunc_body, try_except.
  destruct (gradfunc_try _ _ _) as [[u | e] [fr w1]]; [reflexivity |].
  destruct (isinstance_Exception e); [| reflexivity].
  unfold gradfunc_except, bind, on_snd, print, log, modify. cbn.
  rewrite with_trace_4. reflexivity.
Qed.

(** ** Steps on the heap and what they keep *)

Lemma preserved_setattr (P : world value Model -> Prop) f :
  (forall w, P w -> P {| self := f (self w); model := model w;
                         trace := trace w |}) ->
  preserved P (setattr f).
Proof. intros H. apply preserved_modify, H. Qed.

Lemma preserved_log (P : world value Model -> Prop) e :
  (forall w, P w -> P {| self := self w; model := model w;
                         trace := trace w ++ [e] |}) ->
  preserved P (log e).
Proof. intros H. apply preserved_modify, H. Qed.

Lemma preserved_on_model {A} (P : world value Model -> Prop)
    (f : Model -> res A * Model) :
  (forall w m, P w -> P {| self := self w; model := m; trace := trace w |}) ->
  preserved P (on_model f).
Proof.
  intros H w HP. unfold on_model. destruct (f (model w)) as [r m'].
  apply H, HP.
Qed.

Lemma preserved_read_model {A} (P : world value Model -> Prop)
    (f : Model -> res A) :
  preserved P (read_model f).
Proof. intros w HP. exact HP. Qed.

Lemma preserved_getattr {A} (P : world value Model -> Prop)
    (f : pyOptSparseDriver value Model -> A) :
  preserved P (getattr f).
Proof. apply preserved_gets. Qed.

Lemma preserved_getattr_or {A} (P : world value Model -> Prop) msg
    (f : pyOptSparseDriver value Model -> option A) :
  preserved P (getattr_or msg f).
Proof.
  unfold getattr_or. apply preserved_bind; [apply preserved_getattr |].
  intros [a |]; [apply preserved_ret | apply preserved_raise].
Qed.

Lemma preserved_relevant_of (P : world value Model -> Prop) sys name :
  preserved P (relevant_of sys name).
Proof.
  unfold relevant_of. destruct (relevant sys !! name);
    [apply preserved_ret | apply preserved_raise].
Qed.

(** One step of a proof that a computation keeps a property: the
    combinators by their rules, the primitive steps by their side
    conditions, which [cbn] or the hints of [keeps] decide. *)
Create HintDb keeps.

Ltac keeps_side :=
  first [ solve [intros; cbn in *; auto]
        | solve [intros; cbn in *; eauto with keeps] ].

Ltac keeps_step :=
  lazymatch goal with
  | |- preserved _ (bind _ _) => apply preserved_bind; [| intros ?]
  | |- preserved _ (ret _) => apply preserved_ret
  | |- preserved _ (raise _) => apply preserved_raise
  | |- preserved _ (gets _) => apply preserved_gets
  | |- preserved _ (getitem _ _) => apply preserved_getitem
  | |- preserved _ (update_local_meta _ _) => apply preserved_update_local_meta
  | |- preserved _ (getattr _) => apply preserved_getattr
  | |- preserved _ (getattr_or _ _) => apply preserved_getattr_or
  | |- preserved _ (relevant_of _ _) => apply preserved_relevant_of
  | |- preserved _ (read_model _) => apply preserved_read_model
  | |- preserved _ (for_each _ _) => apply preserved_for_each; intros ?
  | |- preserved _ (for_fold _ _ _) => apply preserved_for_fold; intros ? ?
  | |- preserved _ (try_except _ _ _) =>
      apply preserved_try_except; [| intros ?]
  | |- preserved _ (on_snd _) => apply preserved_on_snd_frame; intros ?
  | |- preserved _ (setattr _) => apply preserved_setattr; keeps_side
  | |- preserved _ (log _) => apply preserved_log; keeps_side
  | |- preserved _ (print _) => apply preserved_log; keeps_side
  | |- preserved _ (on_model _) => apply preserved_on_model; keeps_side
  | |- preserved _ (modify _) => apply preserved_modify; keeps_side
  | |- preserved _ (set_fail _) => apply preserved_modify; keeps_side
  | |- preserved _ (store_func _ _) => apply preserved_modify; keeps_side
  | |- preserved _ (reg _ _) => unfold reg
  | |- preserved _ (call_solve_nonlinear _ _) => unfold call_solve_nonlinear
  | |- preserved _ (call_calc_gradient _ _ _ _) => unfold call_calc_gradient
  | |- preserved _ (call_set_param _ _ _) => unfold call_set_param
  | |- preserved _ (call_record _ _) => unfold call_record
  | |- preserved _ (if ?b then _ else _) => destruct b
  | |- preserved _ (match ?x with _ => _ end) => destruct x
  end.

Ltac keeps := repeat keeps_step.

(** ** The evaluation callback, step by step *)

Lemma objfunc_unfold base dv_dict w :
  objfunc base dv_dict w
  = match objfunc_body base dv_dict w with
    | (Ok _, (fr, w1)) => (Ok (func_dict fr, fail fr), w1)
    | (Raise e, (fr, w1)) =>
        if isinstance_Exception e
        then (Ok (func_dict fr, 1%Z), with_trace (diagnostics e) w1)
        else (Raise e, w1)
    end.
Proof.
  unfold objfunc, objfunc_body, try_except.
  destruct (objfunc_try _ _ _ _) as [[u | e] [fr w1]]; [reflexivity |].
  destruct (isinstance_Exception e); [| reflexivity].
  unfold objfunc_except, bind, on_snd, print, log, set_fail, modify. cbn.
  rewrite with_trace_4. reflexivity.
Qed.

(** The body ends normally only through its last statement, [fail = 0]. *)
Lemma objfunc_body_Ok_fail base dv_dict w u fr w1 :
  objfunc_body base dv_dict w = (Ok u, (fr, w1)) -> fail fr = 0%Z.
Proof.
  unfold objfunc_body, objfunc_try. intros H.
  repeat (apply bind_Ok_inv in H as (? & ? & _ & H)).
  unfold set_fail, modify in H. inversion H. reflexivity.
Qed.

(** The body of [gradfunc] raises only with its locals untouched. *)
Lemma gradfunc_body_Raise dv_dict fdict w e fr w1 :
  gradfunc_body dv_dict fdict w = (Raise e, (fr, w1)) ->
  fr = {| gfail := 1; sens_dict := [] |}.
Proof.
  destruct (_problem (self w)) as [p |] eqn:Hp.
  - rewrite (gradfunc_body_Some _ _ _ _ Hp). cbn.
    destruct (calc_gradient p _ _ _ _) as [[sd | e'] m']; intros H;
      inversion H; reflexivity.
  - rewrite (gradfunc_body_None _ _ _ Hp). intros H; inversion H; reflexivity.
Qed.

Lemma gradfunc_body_Ok_fail dv_dict fdict w u fr w1 :
  gradfunc_body dv_dict fdict w = (Ok u, (fr, w1)) -> gfail fr = 0%Z.
Proof.
  destruct (_problem (self w)) as [p |] eqn:Hp.
  - rewrite (gradfunc_body_Some _ _ _ _ Hp). cbn.
    destruct (calc_gradient p _ _ _ _) as [[sd | e'] m']; intros H;
      inversion H; reflexivity.
  - rewrite (gradfunc_body_None _ _ _ Hp). intros H; inversion H.
Qed.

(** C1, as amended.  The contract is that of the [try] statements: an
    exception of class [Exception] raised in the [try] body of [objfunc]
    (lines 250-293) or of [gradfunc] (lines 328-340) is caught, and the
    callback prints the diagnostics and returns the dictionary built so
    far (for [gradfunc], the empty one) with the flag 1; an exception
    outside [Exception] raised there is not caught, and the callback
    raises it, in the state the body left; when the body ends without
    raising, the callback returns its dictionary with the flag 0.
    [gradfunc], whose body is the whole of its [try], raises nothing
    else. *)
Theorem callbacks_isolate_Exception base dv_dict fdict w :
  (forall e fr w1,
      objfunc_body base dv_dict w = (Raise e, (fr, w1)) ->
      isinstance_Exception e = true ->
      objfunc base dv_dict w
      = (Ok (func_dict fr, 1%Z), with_trace (diagnostics e) w1))
  /\ (forall e fr w1,
      objfunc_body base dv_dict w = (Raise e, (fr, w1)) ->
      isinstance_Exception e = false ->
      objfunc base dv_dict w = (Raise e, w1))
  /\ (forall u fr w1,
      objfunc_body base dv_dict w = (Ok u, (fr, w1)) ->
      objfunc base dv_dict w = (Ok (func_dict fr, 0%Z), w1))
  /\ (forall e fr w1,
      gradfunc_body dv_dict fdict w = (Raise e, (fr, w1)) ->
      isinstance_Exception e = true ->
      gradfunc dv_dict fdict w
      = (Ok ([], 1%Z), with_trace (diagnostics e) w1))
  /\ (forall e fr w1,
      gradfunc_body dv_dict fdict w = (Raise e, (fr, w1)) ->
      isinstance_Exception e = false ->
      gradfunc dv_dict fdict w = (Raise e, w1))
  /\ (forall u fr w1,
      gradfunc_body dv_dict fdict w = (Ok u, (fr, w1)) ->
      gradfunc dv_dict fdict w = (Ok (sens_dict fr, 0%Z), w1))
  /\ (forall e w1,
      gradfunc dv_dict fdict w = (Raise e, w1) ->
      isinstance_Exception e = false
      /\ exists fr, gradfunc_body dv_dict fdict w = (Raise e, (fr, w1))).
Proof.
  repeat apply conj.
  - intros e fr w1 Hb He. rewrite objfunc_unfold, Hb, He. reflexivity.
  - intros e fr w1 Hb He. rewrite objfunc_unfold, Hb, He. reflexivity.
  - intros u fr w1 Hb. rewrite objfunc_unfold, Hb.
    rewrite (objfunc_body_Ok_fail _ _ _ _ _ _ Hb). reflexivity.
  - intros e fr w1 Hb He. rewrite gradfunc_unfold, Hb, He.
    rewrite (gradfunc_body_Raise _ _ _ _ _ _ Hb). reflexivity.
  - intros e fr w1 Hb He. rewrite gradfunc_unfold, Hb, He. reflexivity.
  - intros u fr w1 Hb. rewrite gradfunc_unfold, Hb.
    rewrite (gradfunc_body_Ok_fail _ _ _ _ _ _ Hb). reflexivity.
  - intros e w1. rewrite gradfunc_unfold.
    destruct (gradfunc_body dv_dict fdict w) as [[u | e'] [fr w2]];
      [discriminate |].
    destruct (isinstance_Exception e') eqn:He; [discriminate |].
    intros H; inversion H; subst. split; [exact He |].
    exists fr. reflexivity.
Qed.

(** ** What the gradient callback asks of the model *)

Lemma calc_gradient_calls_app (t1 t2 : list (event value)) :
  calc_gradient_calls (t1 ++ t2)
  = (calc_gradient_calls t1 ++ calc_gradient_calls t2)%list.
Proof.
  induction t1 as [| e t1 IH]; [reflexivity |].
  destruct e; cbn; rewrite ?IH; reflexivity.
Qed.

(** C2, as amended.  Called during a run, the gradient callback calls the
    model's gradient computation exactly once, for the keys of [dv_dict]
    and the responses of [self.quantities], with the return format
    ['dict']; its argument [func_dict] plays no part. *)
Theorem gradfunc_requests_quantities dv_dict fdict w p :
  _problem (self w) = Some p ->
  calc_gradient_calls (trace (snd (gradfunc dv_dict fdict w)))
  = (calc_gradient_calls (trace w)
     ++ [(keys dv_dict, Names (quantities (self w)), "dict")])%list.
Proof.
  intros Hp. rewrite gradfunc_unfold, (gradfunc_body_Some _ _ _ _ Hp). cbn.
  destruct (calc_gradient p _ _ _ _) as [[sd | e] m']; cbn.
  - apply calc_gradient_calls_app.
  - destruct (isinstance_Exception e); cbn;
      rewrite ?calc_gradient_calls_app; cbn; rewrite ?app_nil_r; reflexivity.
Qed.

(** ** The exit status *)

(** The classification as one assignment, for the proofs about [finalize]. *)
Lemma classify_exit_returns (sol : Solution value) w :
  exists w', classify_exit sol w = (Ok tt, w')
             /\ pyopt_solution (self w') = pyopt_solution (self w)
             /\ exit_flag (self w')
                = match optInform sol !! "value" with
                  | Some exit_status => if is_success exit_status then 1 else 0
                  | None => 0
                  end%Z.
Proof.
  unfold classify_exit, try_except, bind, setattr, modify, is_success.
  destruct (optInform sol !! "value") as [v |]; cbn; [| eauto].
  destruct (2 <? v)%Z; cbn; eauto.
Qed.

(** [run] ends with the classification of the solution it saved. *)
Lemma finalize_exit_flag base pl (sol : Solution value) w u w' :
  finalize base pl sol w = (Ok u, w') ->
  pyopt_solution (self w') = Some sol
  /\ exit_flag (self w')
     = match optInform sol !! "value" with
       | Some exit_status => if is_success exit_status then 1 else 0
       | None => 0
       end%Z.
Proof.
  unfold finalize. intros H.
  repeat (apply bind_Ok_inv in H as (? & ? & ? & H)).
  match goal with
  | H1 : setattr _ ?s = (_, ?s') |- _ =>
      destruct (classify_exit_returns sol s') as (w2 & Hc & Hp & He);
      unfold setattr, modify in H1; inversion H1; subst
  end.
  rewrite Hc in H. inversion H; subst. split; [exact Hp | exact He].
Qed.

(** ** The gradient callback outside a run *)

Lemma finalize_keeps_problem base pl (sol : Solution value) :
  preserved (fun w => _problem (self w) = None) (finalize base pl sol).
Proof.
  unfold finalize, classify_exit. keeps.
Qed.

Lemma solve_Ok_problem base problem opt opt_prob w (sol : Solution value) w' :
  solve base problem opt opt_prob w = (Ok sol, w') ->
  _problem (self w') = None.
Proof.
  unfold solve. intros H.
  repeat (apply bind_Ok_inv in H as (? & ? & ? & H)).
  unfold ret in H. inversion H; subst.
  match goal with
  | H1 : setattr _ _ = _ |- _ => unfold setattr, modify in H1; inversion H1
  end.
  reflexivity.
Qed.

Lemma run_Ok_problem base pyoptsparse problem w u w' :
  run base pyoptsparse problem w = (Ok u, w') -> _problem (self w') = None.
Proof.
  unfold run. intros H.
  apply bind_Ok_inv in H as (cfg & w1 & _ & H).
  apply bind_Ok_inv in H as (opt & w2 & _ & H).
  apply bind_Ok_inv in H as (sol & w3 & Hs & H).
  apply solve_Ok_problem in Hs.
  pose proof (finalize_keeps_problem base (snd cfg) sol w3 Hs) as Hk.
  rewrite H in Hk. exact Hk.
Qed.

(** C6.  The classification of the exit status (lines 215-221) never
    raises, and it assigns [exit_flag] and nothing else: 1 when
    [optInform] has a status under the key ['value'] and that status is a
    good one (not above 2), 0 when the status is a bad one or when there
    is none.  This is the last statement of [run]: a [run] that returns
    has saved a solution in [pyopt_solution], and its [exit_flag] is the
    classification of that solution. *)
Theorem exit_status_classification (sol : Solution value) w :
  (forall s, is_success s = true <-> (s <= 2)%Z)
  /\ (exists w',
        classify_exit sol w = (Ok tt, w')
        /\ exit_flag (self w')
           = match optInform sol !! "value" with
             | Some exit_status => if is_success exit_status then 1 else 0
             | None => 0
             end%Z
        /\ w' = {| self := set_exit_flag (exit_flag (self w')) (self w);
                   model := model w; trace := trace w |}
        /\ set_exit_flag (exit_flag (self w)) (self w') = self w)
  /\ (forall base pl u w',
        finalize base pl sol w = (Ok u, w') ->
        pyopt_solution (self w') = Some sol
        /\ exit_flag (self w')
           = match optInform sol !! "value" with
             | Some exit_status => if is_success exit_status then 1 else 0
             | None => 0
             end%Z)
  /\ (forall base pyoptsparse problem u w',
        run base pyoptsparse problem w = (Ok u, w') ->
        exists sol', pyopt_solution (self w') = Some sol'
          /\ exit_flag (self w')
             = match optInform sol' !! "value" with
               | Some exit_status => if is_success exit_status then 1 else 0
               | None => 0
               end%Z).
Proof.
  split; [| split; [| split]].
  - intros s. unfold is_success. rewrite negb_true_iff, Z.ltb_ge. reflexivity.
  - unfold classify_exit, try_except, bind, setattr, modify, is_success.
    destruct w as [d m t]. destruct d. cbn.
    destruct (optInform sol !! "value") as [v |]; cbn.
    + destruct (2 <? v)%Z; cbn; eexists; repeat split; reflexivity.
    + eexists; repeat split; reflexivity.
  - intros base pl u w' H. exact (finalize_exit_flag _ _ _ _ _ _ H).
  - intros base pyoptsparse problem u w' H. unfold run in H.
    apply bind_Ok_inv in H as (cfg & w1 & _ & H).
    apply bind_Ok_inv in H as (opt & w2 & _ & H).
    apply bind_Ok_inv in H as (sol' & w3 & _ & H).
    exists sol'. exact (finalize_exit_flag _ _ _ _ _ _ H).
Qed.

(** C10.  Called while [_problem] is [None], the gradient callback does
    not raise: the [AttributeError] of the attribute access is caught,
    the diagnostics are printed, and the callback returns the empty
    dictionary with the flag 1. *)
Theorem gradfunc_without_problem dv_dict fdict w :
  _problem (self w) = None ->
  gradfunc dv_dict fdict w
  = (Ok ([], 1%Z),
     with_trace
       (diagnostics
          (Exn AttributeError
             "'NoneType' object has no attribute 'calc_gradient'")) w).
Proof.
  intros Hp. rewrite gradfunc_unfold, (gradfunc_body_None _ _ _ Hp).
  reflexivity.
Qed.

(** ** The iteration counter *)

Lemma apply_design_vars_self base dv_dict d :
  preserved (fun w => self w = d) (apply_design_vars base dv_dict).
Proof. unfold apply_design_vars. keeps. Qed.

(** Once the counter exists it is advanced, whether or not the metadata
    can then be refreshed. *)
Lemma advance_iteration_count md w n :
  iter_count (self w) = Some n ->
  iter_count (self (snd (advance_iteration md w))) = Some (n + 1)%Z.
Proof.
  intros H. unfold advance_iteration, bind, getattr_or, getattr, bind, gets,
    setattr, modify. cbn. rewrite H. cbn. destruct md; reflexivity.
Qed.

Lemma initial_run_unfold problem w :
  initial_run problem w
  = let md := Some (LocalMeta (optimizer (options (self w))) [0%Z]) in
    let d := set_metadata md
               (set_iter_count (Some 0%Z)
                  (set_pyopt_solution None (self w))) in
    match solve_nonlinear (root problem) md (model w) with
    | (r, m') =>
        (r, {| self := d; model := m';
               trace := trace w ++ [EvSolveNonlinear md] |})
    end.
Proof.
  unfold initial_run, call_solve_nonlinear, bind, getattr_or, getattr, bind,
    gets, setattr, log, modify, on_model. cbn.
  destruct (solve_nonlinear _ _ _) as [[u | e] m']; reflexivity.
Qed.

Lemma objfunc_iter_count base dv_dict w n :
  iter_count (self w) = Some n ->
  iter_count (self (snd (objfunc base dv_dict w)))
  = match fst (apply_design_vars base dv_dict w) with
    | Ok _ => Some (n + 1)%Z
    | Raise _ => Some n
    end.
Proof.
  intros Hn. rewrite objfunc_unfold. unfold objfunc_body, objfunc_try.
  pose proof (apply_design_vars_self base dv_dict (self w) w eq_refl) as Hs.
  unfold bind at 1. unfold on_snd at 1. cbn [snd fst].
  destruct (apply_design_vars base dv_dict w) as [[u | e] w1]; cbn in Hs |- *.
  - pose proof (advance_iteration_count (metadata (self w)) w1 n) as Ha.
    rewrite Hs in Ha. specialize (Ha Hn).
    unfold bind at 1. unfold on_snd at 1. cbn [snd fst].
    destruct (advance_iteration _ w1) as [[md | e] w2]; cbn in Ha |- *.
    + match goal with
      | |- context [bind ?m ?k ?s] => set (tail := bind m k)
      end.
      assert (Ht : preserved
                     (fun fs : objfunc_frame value * world value Model =>
                        iter_count (self (snd fs)) = Some (n + 1)%Z) tail)
        by (unfold tail, harvest; keeps).
      specialize (Ht ({| fail := 1; func_dict := [] |}, w2) Ha).
      destruct (tail _) as [[u' | e] [fr w3]]; cbn in Ht |- *; [exact Ht |].
      destruct (isinstance_Exception e); exact Ht.
    + destruct (isinstance_Exception e); exact Ha.
  - destruct (isinstance_Exception e); cbn; rewrite Hs; exact Hn.
Qed.

Lemma gradfunc_self dv_dict fdict w :
  self (snd (gradfunc dv_dict fdict w)) = self w.
Proof.
  rewrite gradfunc_unfold. destruct (_problem (self w)) as [p |] eqn:Hp.
  - rewrite (gradfunc_body_Some _ _ _ _ Hp). cbn.
    destruct (calc_gradient p _ _ _ _) as [[sd | e] m']; [reflexivity |].
    destruct (isinstance_Exception e); reflexivity.
  - rewrite (gradfunc_body_None _ _ _ Hp). reflexivity.
Qed.

(** However the engine interleaves its calls, the counter never goes
    down. *)
Lemma call_engine_iter_count base sens (e : engine value) :
  forall w n,
    iter_count (self w) = Some n ->
    exists m, iter_count (self (snd (call_engine base sens e w))) = Some m
              /\ (n <= m)%Z.
Proof.
  induction e as [sol | ex | dv k IH | dv fd k IH]; intros w n Hn; cbn.
  - exists n. split; [exact Hn | lia].
  - exists n. split; [exact Hn | lia].
  - unfold bind. pose proof (objfunc_iter_count base dv w n Hn) as Ho.
    destruct (objfunc base dv w) as [[r | ex] w1]; cbn in Ho |- *.
    + destruct (fst (apply_design_vars base dv w)).
      * destruct (IH r w1 _ Ho) as (m & Hm & Hle).
        exists m. split; [exact Hm | lia].
      * destruct (IH r w1 _ Ho) as (m & Hm & Hle).
        exists m. split; [exact Hm | lia].
    + destruct (fst (apply_design_vars base dv w));
        eexists; (split; [exact Ho | lia]).
  - destruct sens as [st |]; cbn.
    + exists n. split; [exact Hn | lia].
    + unfold bind. pose proof (gradfunc_self dv fd w) as Hg.
      destruct (gradfunc dv fd w) as [[r | ex] w1]; cbn in Hg |- *.
      * apply IH. rewrite Hg. exact Hn.
      * exists n. split; [rewrite Hg; exact Hn | lia].
Qed.

(** C7, as amended.  [run] sets the counter to zero and then makes its
    initial solve, with the metadata at iteration 0.  An invocation of
    the evaluation callback advances the counter by exactly one when the
    design variables could be applied, and leaves it as it is when that
    step raised.  So, across any sequence of callback invocations of an
    engine, the counter never decreases. *)
Theorem iteration_counter base problem dv_dict sens (e : engine value) w :
  (let w1 := snd (initial_run problem w) in
   iter_count (self w1) = Some 0%Z
   /\ trace w1
      = (trace w
         ++ [EvSolveNonlinear
               (Some (LocalMeta (optimizer (options (self w))) [0%Z]))])%list)
  /\ (forall n,
      iter_count (self w) = Some n ->
      iter_count (self (snd (objfunc base dv_dict w)))
      = match fst (apply_design_vars base dv_dict w) with
        | Ok _ => Some (n + 1)%Z
        | Raise _ => Some n
        end)
  /\ (forall n,
      iter_count (self w) = Some n ->
      exists m, iter_count (self (snd (call_engine base sens e w))) = Some m
                /\ (n <= m)%Z).
Proof.
  split; [| split].
  - rewrite initial_run_unfold. cbn.
    destruct (solve_nonlinear _ _ _) as [r m']. cbn. split; reflexivity.
  - apply objfunc_iter_count.
  - apply call_engine_iter_count.
Qed.

(** ** Solves before the optimizer is looked up *)

Lemma count_solves_app (t1 t2 : list (event value)) :
  count_solves (t1 ++ t2) = (count_solves t1 + count_solves t2)%nat.
Proof.
  unfold count_solves. rewrite List.filter_app, length_app. reflexivity.
Qed.

Lemma count_solves_log k (e : event value) w :
  is_solve e = false ->
  count_solves (trace w) = k ->
  count_solves (trace w ++ [e]) = k.
Proof.
  intros He Hk. rewrite count_solves_app. unfold count_solves at 2. cbn.
  rewrite He. cbn. lia.
Qed.

#[local] Hint Resolve count_solves_log : keeps.

Lemma initial_run_solves problem w :
  count_solves (trace (snd (initial_run problem w)))
  = S (count_solves (trace w)).
Proof.
  rewrite initial_run_unfold. cbv zeta. destruct (solve_nonlinear _ _ _).
  cbn [snd trace]. rewrite count_solves_app. unfold count_solves at 2.
  cbn. lia.
Qed.

Lemma build_registry_solves base problem k :
  preserved (fun w => count_solves (trace w) = k)
    (build_registry base problem).
Proof.
  unfold build_registry, add_var_groups, add_eq_con, add_ineq_con. keeps.
Qed.

(** Whatever becomes of the registry, [run] has made exactly one solve
    when it turns to the optimizer. *)
Lemma configure_solves base problem w :
  count_solves (trace (snd (configure base problem w)))
  = S (count_solves (trace w)).
Proof.
  unfold configure, bind. pose proof (initial_run_solves problem w) as Hi.
  destruct (initial_run problem w) as [[u | e] w1]; cbn in Hi |- *;
    [| exact Hi].
  exact (build_registry_solves base problem _ w1 Hi).
Qed.

Lemma engine_started_log b (e : event value) t :
  is_optimizer_call e = false ->
  engine_started t = b ->
  engine_started (t ++ [e]) = b.
Proof.
  intros He Hb. unfold engine_started in *. rewrite existsb_app, Hb. cbn.
  rewrite He. destruct b; reflexivity.
Qed.

#[local] Hint Resolve engine_started_log : keeps.

(** The registry does not start the engine. *)
Lemma configure_engine base problem b :
  preserved (fun w => engine_started (trace w) = b) (configure base problem).
Proof.
  unfold configure, initial_run, build_registry, add_var_groups, add_eq_con,
    add_ineq_con. keeps.
Qed.

(** The registry keeps the options. *)
Lemma configure_options base problem o :
  preserved (fun w => options (self w) = o) (configure base problem).
Proof.
  unfold configure, initial_run, build_registry, add_var_groups, add_eq_con,
    add_ineq_con. keeps.
Qed.

(** Without the optimizer class, the instantiation raises at once. *)
Lemma instantiate_unavailable (pyoptsparse : string -> option (Optimizer value))
    w :
  pyoptsparse (optimizer (options (self w))) = None ->
  instantiate pyoptsparse w
  = (Raise (Exn ImportError
              ("Optimizer " ++ optimizer (options (self w))
               ++ " is not available in this installation.")), w).
Proof.
  intros H. unfold instantiate, bind, getattr, gets, try_except. cbn.
  rewrite H. reflexivity.
Qed.

(** X16.  A supported optimizer that the installation lacks (lines
    171-181).  When the optimizer of the options is one of the declared
    values (an identifier, which the import statement of line 174 takes
    as it is) and
    pyoptsparse has no class of that name, [run] raises: an
    [ImportError], once the initial solve is made and the registry is
    built, with the heap as the registry left it.  So exactly one solve of
    the model has occurred by then, the initial one, and the engine is
    never started. *)
Theorem unavailable_optimizer base
    (pyoptsparse : string -> option (Optimizer value)) problem w :
  optimizer (options (self w)) ∈ optimizer_values ->
  pyoptsparse (optimizer (options (self w))) = None ->
  (exists e, fst (run base pyoptsparse problem w) = Raise e)
  /\ count_solves (trace (snd (run base pyoptsparse problem w)))
     = S (count_solves (trace w))
  /\ engine_started (trace (snd (run base pyoptsparse problem w)))
     = engine_started (trace w)
  /\ (forall cfg w1,
      configure base problem w = (Ok cfg, w1) ->
      run base pyoptsparse problem w
      = (Raise (Exn ImportError
                  ("Optimizer " ++ optimizer (options (self w))
                   ++ " is not available in this installation.")), w1)).
Proof.
  intros _ Hnone.
  pose proof (configure_solves base problem w) as Hc.
  pose proof (configure_options base problem _ w eq_refl) as Ho.
  pose proof (configure_engine base problem _ w eq_refl) as Hg.
  assert (Hrun : run base pyoptsparse problem w
                 = match configure base problem w with
                   | (Ok _, w1) =>
                       (Raise (Exn ImportError
                                 ("Optimizer " ++ optimizer (options (self w))
                                  ++ " is not available in this installation.")),
                        w1)
                   | (Raise e, w1) => (Raise e, w1)
                   end).
  { unfold run, bind at 1.
    destruct (configure base problem w) as [[cfg | e] w1]; cbn in Ho;
      [| reflexivity].
    rewrite <- Ho in Hnone. unfold bind.
    rewrite (instantiate_unavailable _ _ Hnone), Ho. reflexivity. }
  rewrite Hrun.
  destruct (configure base problem w) as [[cfg | e] w1]; cbn in Hc, Hg |- *.
  - split; [eauto |]. split; [exact Hc |]. split; [exact Hg |].
    intros cfg' w1' H. inversion H; subst. reflexivity.
  - split; [eauto |]. split; [exact Hc |]. split; [exact Hg |].
    intros cfg' w1' H. discriminate.
Qed.

(** ** The registry *)

Lemma preserved_run {St A} (P : St -> Prop) (m : M St A) s r s' :
  preserved P m -> m s = (r, s') -> P s -> P s'.
Proof. intros Hm He HP. specialize (Hm s HP). rewrite He in Hm. exact Hm. Qed.

Lemma reg_Ok (c : reg_call value) op w op' w' :
  reg c op w = (Ok op', w') -> op' = register c op.
Proof. unfold reg, bind, log, modify, ret. intros H; inversion H. reflexivity. Qed.

(** A loop of registrations appends one call per element. *)
Lemma for_fold_calls {A} (R : A -> reg_call value -> Prop)
    (f : Optimization value -> A -> M (world value Model) (Optimization value)) :
  (forall op x w op' w',
      f op x w = (Ok op', w') -> exists c, op' = register c op /\ R x c) ->
  forall l op w op' w',
    for_fold l op f w = (Ok op', w') ->
    exists cs, opt_calls op' = (opt_calls op ++ cs)%list /\ Forall2 R l cs.
Proof.
  intros Hf l. induction l as [| x l IH]; intros op w op' w' H; cbn in H.
  - unfold ret in H. inversion H; subst. exists []. rewrite app_nil_r.
    split; [reflexivity | constructor].
  - apply bind_Ok_inv in H as (op1 & w1 & H1 & H).
    apply Hf in H1 as (c & -> & Hc).
    apply IH in H as (cs & Hcs & HF). exists (c :: cs). split.
    + rewrite Hcs. cbn. rewrite <- app_assoc. reflexivity.
    + constructor; assumption.
Qed.

Lemma add_var_group_Ok base pv op nm w op' w' :
  (v <- getitem pv (fst nm) ;;
   reg (addVarGroup (fst nm) (pm_size (snd nm)) "c" v
          (pm_low (snd nm)) (pm_high (snd nm))) op) w = (Ok op', w') ->
  exists c : reg_call value, op' = register c op /\ var_group_for nm c.
Proof.
  clear base. intros H. apply bind_Ok_inv in H as (v & w1 & _ & H).
  apply reg_Ok in H. eexists. split; [exact H |]. exists v. reflexivity.
Qed.

(** Both loops over constraints look up the metadata and the relevant
    set of a name, and register one group for it. *)
Ltac con_group_inv H name :=
  let meta := fresh "meta" in
  let Hm := fresh "Hm" in
  let Hr := fresh "Hr" in
  let Hl := fresh "Hl" in
  apply bind_Ok_inv in H as (meta & ? & Hm & H);
  destruct (dict_get _ name) eqn:?; [| discriminate];
  unfold ret in Hm; inversion Hm; subst; clear Hm;
  apply bind_Ok_inv in H as (? & ? & Hr & H);
  destruct (relevant _ !! name) eqn:?; [| discriminate];
  unfold ret in Hr; inversion Hr; subst; clear Hr;
  destruct (cm_linear meta) eqn:Hl;
  [ apply bind_Ok_inv in H as (? & ? & _ & H);
    apply bind_Ok_inv in H as (? & ? & _ & H) | ];
  apply reg_Ok in H; eexists; (split; [exact H |]);
  exists meta; rewrite Hl; eauto 10.

Lemma add_eq_con_Ok base problem pl op name w op' w' :
  add_eq_con base (root problem) pl op name w = (Ok op', w') ->
  exists c, op' = register c op /\ con_group_for base problem pl name c.
Proof.
  unfold add_eq_con, getitem, relevant_of. intros H. con_group_inv H name.
Qed.

Lemma add_ineq_con_Ok base problem pl op name w op' w' :
  add_ineq_con base (root problem) pl op name w = (Ok op', w') ->
  exists c, op' = register c op /\ con_group_for base problem pl name c.
Proof.
  unfold add_ineq_con, getitem, relevant_of. intros H. con_group_inv H name.
Qed.

(** The dictionary [get_constraints] returns has the selected names as
    its keys, in order. *)
Lemma read_values_keys base names (m : Model) d :
  read_values base names m = Ok d -> keys d = names.
Proof.
  revert d. induction names as [| n names IH]; intros d H; cbn in H.
  - inversion H. reflexivity.
  - destruct (constraint_value base n m); [| discriminate].
    destruct (read_values base names m) as [d' |]; [| discriminate].
    inversion H; subst. cbn. f_equal. apply IH. reflexivity.
Qed.

Lemma get_constraints_keys base ctype lintype (m : Model) d :
  get_constraints base ctype lintype m = Ok d ->
  keys d = constraint_names base ctype lintype.
Proof. apply read_values_keys. Qed.


Lemma build_registry_Ok base problem w cfg w1 :
  build_registry base problem w = (Ok cfg, w1) ->
  exists vcalls (objs : dict value) ecalls icalls,
    snd cfg = keys (get_param_metadata base)
    /\ opt_calls (fst cfg)
       = (vcalls ++ [finalizeDesignVariables] ++ map addObj (keys objs)
          ++ ecalls ++ icalls)%list
    /\ Forall2 var_group_for (get_param_metadata base) vcalls
    /\ Forall2 (con_group_for base problem (snd cfg))
         (constraint_names base ctype_eq lintype_nonlinear) ecalls
    /\ Forall2 (con_group_for base problem (snd cfg))
         (constraint_names base ctype_ineq lintype_nonlinear) icalls
    /\ quantities (self w1)
       = (keys objs ++ constraint_names base ctype_eq lintype_nonlinear
          ++ constraint_names base ctype_ineq lintype_nonlinear)%list.
Proof.
  unfold build_registry. intros H.
  apply bind_Ok_inv in H as (ttl & s1 & _ & H).
  apply bind_Ok_inv in H as (? & s2 & _ & H).
  apply bind_Ok_inv in H as (pv & s3 & _ & H).
  apply bind_Ok_inv in H as (op1 & s4 & Hv & H).
  apply bind_Ok_inv in H as (op2 & s5 & Hf & H).
  apply bind_Ok_inv in H as (objs & s6 & _ & H).
  apply bind_Ok_inv in H as (? & s7 & Hq1 & H).
  apply bind_Ok_inv in H as (op3 & s8 & Ho & H).
  apply bind_Ok_inv in H as (lc & s9 & Hl & H).
  apply bind_Ok_inv in H as (? & s10 & Hlin & H).
  apply bind_Ok_inv in H as (econs & s11 & He & H).
  apply bind_Ok_inv in H as (q1 & s12 & Hg1 & H).
  apply bind_Ok_inv in H as (? & s13 & Hq2 & H).
  apply bind_Ok_inv in H as (op4 & s14 & Hec & H).
  apply bind_Ok_inv in H as (incons & s15 & Hi & H).
  apply bind_Ok_inv in H as (q2 & s16 & Hg2 & H).
  apply bind_Ok_inv in H as (? & s17 & Hq3 & H).
  apply bind_Ok_inv in H as (op5 & s18 & Hic & H).
  unfold ret in H. inversion H; subst; clear H. cbn [fst snd].
  assert (Q7 : quantities (self s7) = keys objs)
    by (unfold setattr, modify in Hq1; inversion Hq1; reflexivity).
  assert (Q8 : quantities (self s8) = keys objs)
    by (eapply (preserved_run (fun w => quantities (self w) = keys objs));
        [| exact Ho | exact Q7]; keeps).
  assert (Q9 : quantities (self s9) = keys objs)
    by (unfold read_model in Hl; inversion Hl; subst; exact Q8).
  assert (Q10 : quantities (self s10) = keys objs)
    by (eapply (preserved_run (fun w => quantities (self w) = keys objs));
        [| exact Hlin | exact Q9]; keeps).
  assert (E1 : s11 = s10 /\ keys econs
               = constraint_names base ctype_eq lintype_nonlinear).
  { unfold read_model in He. inversion He; subst. split; [reflexivity |].
    eapply get_constraints_keys; eassumption. }
  destruct E1 as [-> Ke].
  unfold getattr, gets in Hg1. inversion Hg1; subst; clear Hg1.
  rewrite Q10 in *.
  assert (Q13 : quantities (self s13) = (keys objs ++ keys econs)%list)
    by (unfold setattr, modify in Hq2; inversion Hq2; reflexivity).
  assert (Q14 : quantities (self s14) = (keys objs ++ keys econs)%list)
    by (eapply (preserved_run
                  (fun w => quantities (self w) = (keys objs ++ keys econs)%list));
        [| exact Hec | exact Q13]; unfold add_eq_con; keeps).
  assert (E2 : s15 = s14 /\ keys incons
               = constraint_names base ctype_ineq lintype_nonlinear).
  { unfold read_model in Hi. inversion Hi; subst. split; [reflexivity |].
    eapply get_constraints_keys; eassumption. }
  destruct E2 as [-> Ki].
  unfold getattr, gets in Hg2. inversion Hg2; subst; clear Hg2.
  rewrite Q14 in *.
  assert (Q17 : quantities (self s17)
                = ((keys objs ++ keys econs) ++ keys incons)%list)
    by (unfold setattr, modify in Hq3; inversion Hq3; reflexivity).
  assert (Q18 : quantities (self w1)
                = ((keys objs ++ keys econs) ++ keys incons)%list)
    by (eapply (preserved_run
                  (fun w => quantities (self w)
                            = ((keys objs ++ keys econs) ++ keys incons)%list));
        [| exact Hic | exact Q17]; unfold add_ineq_con; keeps).
  unfold add_var_groups in Hv.
  eapply for_fold_calls in Hv as (vcalls & Hvc & HvF);
    [| intros; eapply add_var_group_Ok; eassumption].
  apply reg_Ok in Hf. subst op2.
  eapply (for_fold_calls (fun name c => c = addObj name)) in Ho
    as (ocalls & Hoc & HoF);
    [| intros ? ? ? ? ? Hr; apply reg_Ok in Hr; eauto].
  eapply for_fold_calls in Hec as (ecalls & Hecc & HeF);
    [| intros; eapply add_eq_con_Ok; eassumption].
  eapply for_fold_calls in Hic as (icalls & Hicc & HiF);
    [| intros; eapply add_ineq_con_Ok; eassumption].
  assert (Hom : ocalls = map addObj (keys objs)).
  { clear -HoF. induction HoF; cbn; [reflexivity | congruence]. }
  exists vcalls, objs, ecalls, icalls.
  split; [reflexivity |]. split.
  { rewrite Hicc, Hecc, Hoc. cbn. rewrite Hvc, Hom. cbn.
    rewrite <- !app_assoc. reflexivity. }
  split; [exact HvF |]. rewrite <- Ke, <- Ki.
  split; [exact HeF |]. split; [exact HiF |].
  rewrite Q18, <- app_assoc. reflexivity.
Qed.

Lemma configure_Ok base problem w cfg w1 :
  configure base problem w = (Ok cfg, w1) ->
  exists s, initial_run problem w = (Ok tt, s)
            /\ build_registry base problem s = (Ok cfg, w1).
Proof.
  unfold configure. intros H. apply bind_Ok_inv in H as ([] & s & Hi & H).
  eauto.
Qed.

(** *** Reading a registry back *)

Lemma registered_vars_app (a b : list (reg_call value)) :
  registered_vars (a ++ b) = (registered_vars a ++ registered_vars b)%list.
Proof.
  induction a as [| c a IH]; [reflexivity |].
  destruct c; cbn; rewrite ?IH; reflexivity.
Qed.

Lemma registered_objs_app (a b : list (reg_call value)) :
  registered_objs (a ++ b) = (registered_objs a ++ registered_objs b)%list.
Proof.
  induction a as [| c a IH]; [reflexivity |].
  destruct c; cbn; rewrite ?IH; reflexivity.
Qed.

Lemma registered_cons_app (a b : list (reg_call value)) :
  registered_cons (a ++ b) = (registered_cons a ++ registered_cons b)%list.
Proof.
  induction a as [| c a IH]; [reflexivity |].
  destruct c; cbn; rewrite ?IH; reflexivity.
Qed.

Lemma var_groups_registered (l : dict (param_meta value)) cs :
  Forall2 var_group_for l cs ->
  registered_vars cs = keys l /\ registered_objs cs = []
  /\ registered_cons cs = [].
Proof.
  induction 1 as [| nm c l cs [v ->] _ (IHv & IHo & IHc)]; cbn.
  - auto.
  - rewrite IHv, IHo, IHc. auto.
Qed.

Lemma con_groups_registered base problem pl names cs :
  Forall2 (con_group_for base problem pl) names cs ->
  registered_vars cs = [] /\ registered_objs cs = []
  /\ registered_cons cs = names.
Proof.
  induction 1 as [| n c names cs (meta & lo & up & jac & rs & _ & _ & ->) _
                    (IHv & IHo & IHc)]; cbn.
  - auto.
  - rewrite IHv, IHo, IHc. auto.
Qed.

Lemma objs_registered (l : list string) :
  registered_vars (map (@addObj value) l) = []
  /\ registered_objs (map (@addObj value) l) = l
  /\ registered_cons (map (@addObj value) l) = [].
Proof.
  induction l as [| n l (IHv & IHo & IHc)]; cbn; [auto |].
  rewrite IHv, IHo, IHc. auto.
Qed.

(** What a successful [configure] has registered, read back. *)
Lemma configure_registered base problem w cfg w1 :
  configure base problem w = (Ok cfg, w1) ->
  snd cfg = keys (get_param_metadata base)
  /\ registered_vars (opt_calls (fst cfg)) = keys (get_param_metadata base)
  /\ registered_cons (opt_calls (fst cfg))
     = (constraint_names base ctype_eq lintype_nonlinear
        ++ constraint_names base ctype_ineq lintype_nonlinear)%list
  /\ quantities (self w1)
     = (registered_objs (opt_calls (fst cfg))
        ++ constraint_names base ctype_eq lintype_nonlinear
        ++ constraint_names base ctype_ineq lintype_nonlinear)%list.
Proof.
  intros H. apply configure_Ok in H as (s & _ & H).
  apply build_registry_Ok in H
    as (vcalls & objs & ecalls & icalls & Hpl & Hc & Hv & He & Hi & Hq).
  apply var_groups_registered in Hv as (Hv1 & Hv2 & Hv3).
  apply con_groups_registered in He as (He1 & He2 & He3).
  apply con_groups_registered in Hi as (Hi1 & Hi2 & Hi3).
  destruct (objs_registered (keys objs)) as (Ho1 & Ho2 & Ho3).
  rewrite Hc.
  rewrite !registered_vars_app, !registered_objs_app, !registered_cons_app.
  rewrite Hv1, Hv2, Hv3, He1, He2, He3, Hi1, Hi2, Hi3, Ho1, Ho2, Ho3. cbn.
  rewrite !app_nil_r. auto.
Qed.

(** *** Membership *)

Lemma elem_of_keys {V} (d : dict V) k :
  k ∈ keys d <-> exists v, (k, v) ∈ d.
Proof.
  induction d as [| [k' v'] d IH]; cbn.
  - split; [intros H; inversion H | intros [v H]; inversion H].
  - rewrite elem_of_cons, IH. split.
    + intros [-> | [v H]]; [exists v'; left | exists v; right; exact H].
    + intros [v H]. apply elem_of_cons in H as [H | H].
      * inversion H; subst. left. reflexivity.
      * right. exists v. exact H.
Qed.

Lemma NoDup_keys_agree {V} (d : dict V) k v v' :
  NoDup (keys d) -> (k, v) ∈ d -> (k, v') ∈ d -> v = v'.
Proof.
  induction d as [| [k0 v0] d IH]; cbn; intros Hnd H1 H2.
  - inversion H1.
  - apply NoDup_cons in Hnd as [Hk Hnd].
    apply elem_of_cons in H1 as [H1 | H1];
      apply elem_of_cons in H2 as [H2 | H2].
    + congruence.
    + inversion H1; subst. exfalso. apply Hk, elem_of_keys. eauto.
    + inversion H2; subst. exfalso. apply Hk, elem_of_keys. eauto.
    + eauto.
Qed.

Lemma elem_of_constraint_names base ctype lintype name :
  name ∈ constraint_names base ctype lintype
  <-> exists meta, (name, meta) ∈ get_constraint_metadata base
                   /\ selects ctype lintype meta = true.
Proof.
  unfold constraint_names. rewrite elem_of_keys. split.
  - intros [meta H]. apply list_elem_of_filter in H as [Hs H].
    exists meta. split; [exact H |]. cbn in Hs.
    destruct (selects ctype lintype meta); [reflexivity | destruct Hs].
  - intros (meta & H & Hs). exists meta. apply list_elem_of_filter.
    split; [cbn; rewrite Hs; exact I | exact H].
Qed.

(** A constraint that is not linear is among the nonlinear equality or
    the nonlinear inequality constraints. *)
Lemma nonlinear_constraint_named base name meta :
  (name, meta) ∈ get_constraint_metadata base ->
  cm_linear meta = false ->
  name ∈ (constraint_names base ctype_eq lintype_nonlinear
          ++ constraint_names base ctype_ineq lintype_nonlinear)%list.
Proof.
  intros Hin Hl. apply elem_of_app. rewrite !elem_of_constraint_names.
  destruct (is_equality meta) eqn:He; [left | right]; exists meta;
    (split; [exact Hin |]); unfold selects; rewrite Hl, He; reflexivity.
Qed.

Lemma nonlinear_names_not_linear base name :
  name ∈ (constraint_names base ctype_eq lintype_nonlinear
          ++ constraint_names base ctype_ineq lintype_nonlinear)%list ->
  exists meta, (name, meta) ∈ get_constraint_metadata base
               /\ cm_linear meta = false.
Proof.
  intros H. apply elem_of_app in H as [H | H];
    apply elem_of_constraint_names in H as (meta & Hin & Hs);
    exists meta; (split; [exact Hin |]); unfold selects in Hs;
    destruct (cm_linear meta); [discriminate | reflexivity
                               | discriminate | reflexivity].
Qed.

Lemma Forall2_elem_of_l {A B} (R : A -> B -> Prop) l k x :
  Forall2 R l k -> x ∈ l -> exists y, y ∈ k /\ R x y.
Proof.
  induction 1 as [| a b l k Hab _ IH]; intros Hx.
  - inversion Hx.
  - apply elem_of_cons in Hx as [-> | Hx].
    + exists b. split; [left | exact Hab].
    + destruct (IH Hx) as (y & Hy & HR). exists y. split; [right |]; assumption.
Qed.

Lemma Forall2_elem_of_r {A B} (R : A -> B -> Prop) l k y :
  Forall2 R l k -> y ∈ k -> exists x, x ∈ l /\ R x y.
Proof.
  induction 1 as [| a b l k Hab _ IH]; intros Hy.
  - inversion Hy.
  - apply elem_of_cons in Hy as [-> | Hy].
    + exists a. split; [left | exact Hab].
    + destruct (IH Hy) as (x & Hx & HR). exists x. split; [right |]; assumption.
Qed.

(** ** Sparsity of the registered constraints *)

(** C5.  When the registry is built, the registered design variables are
    the keys of the parameter metadata; every constraint that is not
    linear, equality or inequality, has a constraint group registered
    under its name whose [wrt] set is the relevant set of that name
    intersected with the registered design variables; and no constraint
    group at all is registered with another [wrt] set. *)
Theorem nonlinear_constraint_sparsity base problem w cfg w1 :
  configure base problem w = (Ok cfg, w1) ->
  let dvs := registered_vars (opt_calls (fst cfg)) in
  dvs = keys (get_param_metadata base)
  /\ (forall name meta,
      (name, meta) ∈ get_constraint_metadata base ->
      cm_linear meta = false ->
      exists size lo up lin jac rs,
        relevant (root problem) !! name = Some rs
        /\ addConGroup name size lo up lin (rs ∩ list_to_set dvs) jac
           ∈ opt_calls (fst cfg))
  /\ (forall name size lo up lin wrt jac,
      addConGroup name size lo up lin wrt jac ∈ opt_calls (fst cfg) ->
      exists rs, relevant (root problem) !! name = Some rs
                 /\ wrt = rs ∩ list_to_set dvs).
Proof.
  intros H dvs.
  destruct (configure_registered _ _ _ _ _ H) as (Hpl & Hdv & _ & _).
  apply configure_Ok in H as (s & _ & H).
  apply build_registry_Ok in H
    as (vcalls & objs & ecalls & icalls & _ & Hc & Hv & He & Hi & _).
  subst dvs. rewrite Hdv, <- Hpl. split; [reflexivity |]. split.
  - intros name meta Hin Hl.
    apply nonlinear_constraint_named in Hin; [| exact Hl].
    assert (exists c, c ∈ opt_calls (fst cfg)
                      /\ con_group_for base problem (snd cfg) name c)
      as (c & Hcin & meta' & lo & up & jac & rs & _ & Hrel & ->).
    { apply elem_of_app in Hin as [Hin | Hin].
      - destruct (Forall2_elem_of_l _ _ _ _ He Hin) as (c & Hcin & HR).
        exists c. split; [| exact HR]. rewrite Hc, !elem_of_app. auto.
      - destruct (Forall2_elem_of_l _ _ _ _ Hi Hin) as (c & Hcin & HR).
        exists c. split; [| exact HR]. rewrite Hc, !elem_of_app. auto. }
    eauto 10.
  - intros name size lo up lin wrt jac Hin. rewrite Hc in Hin.
    rewrite !elem_of_app in Hin.
    destruct Hin as [Hin | [Hin | [Hin | [Hin | Hin]]]].
    + destruct (Forall2_elem_of_r _ _ _ _ Hv Hin) as (nm & _ & v & Heq).
      discriminate.
    + apply list_elem_of_singleton in Hin. discriminate.
    + apply list_elem_of_In, in_map_iff in Hin as (n & Heq & _). discriminate.
    + destruct (Forall2_elem_of_r _ _ _ _ He Hin)
        as (n & _ & meta & lo' & up' & jac' & rs & _ & Hrel & Heq).
      inversion Heq; subst. eauto.
    + destruct (Forall2_elem_of_r _ _ _ _ Hi Hin)
        as (n & _ & meta & lo' & up' & jac' & rs & _ & Hrel & Heq).
      inversion Heq; subst. eauto.
Qed.

(** ** Linear constraints and the registry *)

(** With names that are unique, as the keys of a dictionary are, a
    linear constraint is never among the registered constraint groups,
    and no constraint group is flagged linear. *)
Lemma linear_constraints_unregistered base problem w cfg w1 :
  NoDup (keys (get_constraint_metadata base)) ->
  configure base problem w = (Ok cfg, w1) ->
  (forall name meta,
      (name, meta) ∈ get_constraint_metadata base ->
      cm_linear meta = true ->
      name ∉ registered_cons (opt_calls (fst cfg)))
  /\ (forall name size lo up wrt jac,
      addConGroup name size lo up true wrt jac ∉ opt_calls (fst cfg)).
Proof.
  intros Hnd H.
  destruct (configure_registered _ _ _ _ _ H) as (_ & _ & Hcons & _).
  assert (Hnl : forall name meta,
             (name, meta) ∈ get_constraint_metadata base ->
             cm_linear meta = true ->
             name ∉ (constraint_names base ctype_eq lintype_nonlinear
                     ++ constraint_names base ctype_ineq lintype_nonlinear)%list).
  { intros name meta Hin Hl Hn.
    apply nonlinear_names_not_linear in Hn as (meta' & Hin' & Hl').
    rewrite (NoDup_keys_agree _ _ _ _ Hnd Hin Hin') in Hl. congruence. }
  split.
  - intros name meta Hin Hl. rewrite Hcons. eapply Hnl; eassumption.
  - intros name size lo up wrt jac Hin.
    apply configure_Ok in H as (s & _ & H).
    apply build_registry_Ok in H
      as (vcalls & objs & ecalls & icalls & _ & Hc & Hv & He & Hi & _).
    rewrite Hc, !elem_of_app in Hin.
    assert (Hcon : forall names cs,
               Forall2 (con_group_for base problem (snd cfg)) names cs ->
               (forall n, n ∈ names ->
                  n ∈ (constraint_names base ctype_eq lintype_nonlinear
                       ++ constraint_names base ctype_ineq
                            lintype_nonlinear)%list) ->
               addConGroup name size lo up true wrt jac ∈ cs -> False).
    { intros names cs HF Hsub Hcin.
      destruct (Forall2_elem_of_r _ _ _ _ HF Hcin)
        as (n & Hn & meta & lo' & up' & jac' & rs & Hd & _ & Heq).
      inversion Heq; subst.
      apply Hsub, nonlinear_names_not_linear in Hn as (meta' & Hin' & Hl').
      assert (Hin'' : (n, meta) ∈ get_constraint_metadata base).
      { clear -Hd. induction (get_constraint_metadata base) as [| [k v] d IH];
          cbn in Hd; [discriminate |].
        destruct (String.eqb k n) eqn:Hk.
        - apply String.eqb_eq in Hk. inversion Hd; subst. left.
        - right. apply IH, Hd. }
      rewrite (NoDup_keys_agree _ _ _ _ Hnd Hin' Hin'') in Hl'. congruence. }
    destruct Hin as [Hin | [Hin | [Hin | [Hin | Hin]]]].
    + destruct (Forall2_elem_of_r _ _ _ _ Hv Hin) as (nm & _ & v & Heq).
      discriminate.
    + apply list_elem_of_singleton in Hin. discriminate.
    + apply list_elem_of_In, in_map_iff in Hin as (n & Heq & _). discriminate.
    + eapply (Hcon _ _ He); [| exact Hin].
      intros n Hn. apply elem_of_app. auto.
    + eapply (Hcon _ _ Hi); [| exact Hin].
      intros n Hn. apply elem_of_app. auto.
Qed.

(** ** The response list during a run *)

Lemma during_run_self q t0 w (d : pyOptSparseDriver value Model) m :
  during_run q t0 w -> quantities d = quantities (self w) ->
  during_run q t0 {| self := d; model := m; trace := trace w |}.
Proof. intros [Hq Ht] Hd. split; [cbn; congruence | exact Ht]. Qed.

Lemma during_run_trace q t0 w t :
  during_run q t0 w -> Forall (asks_for q) t ->
  during_run q t0 (with_trace t w).
Proof.
  intros [Hq (t1 & Ht & HF)] Ht'. split; [exact Hq |].
  exists (t1 ++ t)%list. cbn. rewrite Ht, <- app_assoc.
  split; [reflexivity | apply Forall_app; auto].
Qed.

Lemma during_run_log q t0 w e :
  during_run q t0 w -> asks_for q e ->
  during_run q t0 {| self := self w; model := model w;
                     trace := trace w ++ [e] |}.
Proof.
  intros H He. apply (during_run_trace q t0 w [e] H). constructor; auto.
Qed.

#[local] Hint Resolve during_run_self during_run_log : keeps.
#[local] Hint Extern 1 (asks_for _ _) => exact I : keeps.
#[local] Hint Extern 1 (quantities _ = quantities _) => reflexivity : keeps.

Lemma diagnostics_ask_nothing q e :
  Forall (asks_for q) (@diagnostics value e).
Proof. repeat constructor. Qed.

Lemma gradfunc_during_run q t0 dv_dict fdict :
  preserved (during_run (Model := Model) q t0) (gradfunc dv_dict fdict).
Proof.
  intros w Hw. rewrite gradfunc_unfold.
  destruct (_problem (self w)) as [p |] eqn:Hp.
  - rewrite (gradfunc_body_Some _ _ _ _ Hp). cbn.
    assert (Hc : during_run q t0
                   (with_trace
                      [EvCalcGradient (keys dv_dict)
                         (Names (quantities (self w))) "dict"] w)).
    { apply during_run_trace; [exact Hw |]. constructor; [| constructor].
      cbn. apply Hw. }
    destruct (calc_gradient p _ _ _ _) as [[sd | e] m']; cbn.
    + exact (during_run_self _ _ _ (self w) m' Hc eq_refl).
    + destruct (isinstance_Exception e); cbn.
      * apply (during_run_trace q t0
                 {| self := self w; model := m';
                    trace := trace w
                             ++ [EvCalcGradient (keys dv_dict)
                                   (Names (quantities (self w))) "dict"] |}).
        -- exact (during_run_self _ _ _ (self w) m' Hc eq_refl).
        -- apply diagnostics_ask_nothing.
      * exact (during_run_self _ _ _ (self w) m' Hc eq_refl).
  - rewrite (gradfunc_body_None _ _ _ Hp). cbn.
    apply during_run_trace; [exact Hw | apply diagnostics_ask_nothing].
Qed.

(** What the [try] statement of [objfunc] keeps, [objfunc] keeps. *)
Lemma objfunc_keeps (P : world value Model -> Prop) base dv_dict :
  (forall md,
      preserved (fun fs : objfunc_frame value * world value Model =>
                   P (snd fs))
        (try_except isinstance_Exception (objfunc_try base md dv_dict)
           objfunc_except)) ->
  preserved P (objfunc base dv_dict).
Proof.
  intros H w HP. unfold objfunc.
  specialize (H (metadata (self w)) ({| fail := 1; func_dict := [] |}, w) HP).
  destruct (try_except _ _ _ _) as [[u | e] [fr w']]; exact H.
Qed.

Lemma objfunc_during_run q t0 base dv_dict :
  preserved (during_run q t0) (objfunc base dv_dict).
Proof.
  apply objfunc_keeps. intros md.
  unfold objfunc_try, objfunc_except, apply_design_vars, advance_iteration,
    harvest. keeps.
Qed.

Lemma call_engine_during_run q t0 base sens (e : engine value) :
  preserved (during_run q t0) (call_engine base sens e).
Proof.
  induction e as [sol | ex | dv k IH | dv fd k IH]; cbn.
  - apply preserved_ret.
  - apply preserved_raise.
  - apply preserved_bind; [apply objfunc_during_run | intros r; apply IH].
  - destruct sens; [apply preserved_raise |].
    apply preserved_bind; [apply gradfunc_during_run | intros r; apply IH].
Qed.

Lemma solve_during_run q t0 base problem opt opt_prob :
  preserved (during_run q t0) (solve base problem opt opt_prob).
Proof.
  unfold solve.
  repeat first [ apply call_engine_during_run | keeps_step ].
Qed.

Lemma instantiate_during_run q t0
    (pyoptsparse : string -> option (Optimizer value)) :
  preserved (during_run (Model := Model) q t0) (instantiate pyoptsparse).
Proof. unfold instantiate. keeps. Qed.

Lemma finalize_during_run q t0 base pl (sol : Solution value) :
  preserved (during_run q t0) (finalize base pl sol).
Proof. unfold finalize, classify_exit. keeps. Qed.

(** From the end of the registry to the end of [run]. *)
Lemma run_during_run base pyoptsparse problem w cfg w1 :
  configure base problem w = (Ok cfg, w1) ->
  during_run (quantities (self w1)) (trace w1)
    (snd (run base pyoptsparse problem w)).
Proof.
  intros H. unfold run, bind at 1. rewrite H.
  assert (H0 : during_run (quantities (self w1)) (trace w1) w1).
  { split; [reflexivity |]. exists []. rewrite app_nil_r.
    split; [reflexivity | constructor]. }
  revert H0. generalize (quantities (self w1)) (trace w1). intros q t0 H0.
  refine (_ w1 H0).
  change (preserved (during_run q t0)
            (opt <- instantiate pyoptsparse ;;
             sol <- solve base problem opt (fst cfg) ;;
             finalize base (snd cfg) sol)).
  apply preserved_bind; [apply instantiate_during_run | intros opt].
  apply preserved_bind; [apply solve_during_run | intros sol].
  apply finalize_during_run.
Qed.

(** C9.  When the registry is built, [self.quantities] is the registered
    objectives, then the nonlinear equality constraints, then the
    nonlinear inequality constraints, each group in its registration
    order; the constraints in it are exactly the registered constraint
    groups and none of them is linear.  From then to the end of [run],
    however it ends, the list stays the same, and it is the list of
    every gradient computation asked by name. *)
Theorem quantities_order base pyoptsparse problem w cfg w1 :
  configure base problem w = (Ok cfg, w1) ->
  let nonlinear_cons :=
    (constraint_names base ctype_eq lintype_nonlinear
     ++ constraint_names base ctype_ineq lintype_nonlinear)%list in
  quantities (self w1)
  = (registered_objs (opt_calls (fst cfg)) ++ nonlinear_cons)%list
  /\ registered_cons (opt_calls (fst cfg)) = nonlinear_cons
  /\ (forall name,
      name ∈ nonlinear_cons ->
      exists meta, (name, meta) ∈ get_constraint_metadata base
                   /\ cm_linear meta = false)
  /\ (NoDup (keys (get_constraint_metadata base)) ->
      forall name meta,
        (name, meta) ∈ get_constraint_metadata base ->
        cm_linear meta = true -> name ∉ nonlinear_cons)
  /\ during_run (quantities (self w1)) (trace w1)
       (snd (run base pyoptsparse problem w)).
Proof.
  intros H nl.
  destruct (configure_registered _ _ _ _ _ H) as (_ & _ & Hcons & Hq).
  split; [exact Hq |]. split; [exact Hcons |]. split; [| split].
  - apply nonlinear_names_not_linear.
  - intros Hnd name meta Hin Hl Hn.
    apply nonlinear_names_not_linear in Hn as (meta' & Hin' & Hl').
    rewrite (NoDup_keys_agree _ _ _ _ Hnd Hin Hin') in Hl. congruence.
  - exact (run_during_run _ _ _ _ _ _ H).
Qed.

(** * Further properties of the driver *)

(** ** Dictionaries: lookup after assignment *)

Lemma dict_get_set_eq {V} (d : dict V) k v :
  dict_get (dict_set d k v) k = Some v.
Proof.
  induction d as [| [k' v'] d IH]; cbn.
  - rewrite String.eqb_refl. reflexivity.
  - destruct (String.eqb k' k) eqn:E; cbn; rewrite E; [reflexivity | exact IH].
Qed.

Lemma dict_get_set_ne {V} (d : dict V) k k' v :
  k <> k' -> dict_get (dict_set d k v) k' = dict_get d k'.
Proof.
  intros Hne. induction d as [| [k0 v0] d IH]; cbn.
  - apply String.eqb_neq in Hne. rewrite Hne. reflexivity.
  - destruct (String.eqb k0 k) eqn:E; cbn.
    + apply String.eqb_eq in E. subst k0.
      apply String.eqb_neq in Hne. rewrite Hne. reflexivity.
    + rewrite IH. reflexivity.
Qed.

Lemma dict_get_app {V} (d1 d2 : dict V) k :
  dict_get (d1 ++ d2)%list k
  = match dict_get d1 k with
    | Some v => Some v
    | None => dict_get d2 k
    end.
Proof.
  induction d1 as [| [k' v'] d1 IH]; cbn; [reflexivity |].
  destruct (String.eqb k' k); [reflexivity | exact IH].
Qed.

(** After a sequence of assignments, a key holds what was assigned to it
    last, or else what it held before. *)
Lemma dict_get_store_all (items d : dict value) k :
  dict_get (store_all items d) k
  = match dict_get (rev items) k with
    | Some v => Some v
    | None => dict_get d k
    end.
Proof.
  unfold store_all. revert d.
  induction items as [| [k1 v1] items IH]; intros d; cbn; [reflexivity |].
  rewrite IH, dict_get_app. destruct (dict_get (rev items) k); [reflexivity |].
  cbn. destruct (String.eqb k1 k) eqn:E.
  - apply String.eqb_eq in E. subst. apply dict_get_set_eq.
  - apply String.eqb_neq in E. apply dict_get_set_ne, E.
Qed.

Lemma store_all_app (a b d : dict value) :
  store_all (a ++ b)%list d = store_all b (store_all a d).
Proof. unfold store_all. apply fold_left_app. Qed.

(** ** Loops over the design variables *)

Lemma on_snd_Ok {F St A} (m : M St A) (f : F) s a f' s' :
  on_snd m (f, s) = (Ok a, (f', s')) -> m s = (Ok a, s') /\ f' = f.
Proof.
  unfold on_snd. cbn. destruct (m s) as [r s1]. intros H. inversion H.
  split; reflexivity.
Qed.

(** The loop [for name in names: self.set_param(name, d[name])], when it
    ends normally: one call per name, in order, and nothing else. *)
Lemma set_params_Ok base (d : dict value) names w u w' :
  for_each names (fun name =>
    v <- getitem d name ;; call_set_param base name v) w = (Ok u, w') ->
  exists evs, Forall2 (sets_param d) names evs
              /\ trace w' = (trace w ++ evs)%list
              /\ self w' = self w.
Proof.
  revert w. induction names as [| name names IH]; intros w H; cbn in H.
  - unfold ret in H. inversion H; subst. exists []. rewrite app_nil_r.
    repeat split. constructor.
  - apply bind_Ok_inv in H as ([] & w1 & H1 & H).
    apply bind_Ok_inv in H1 as (v & w2 & Hv & H1).
    unfold getitem in Hv. destruct (dict_get d name) as [v' |] eqn:Hd;
      [| discriminate].
    unfold ret in Hv. inversion Hv; subst. clear Hv.
    unfold call_set_param, bind, log, modify, on_model in H1. cbn in H1.
    destruct (set_param base name v (model w2)) as [[[] | e] m'];
      inversion H1; subst. clear H1.
    apply IH in H as (evs & HF & Ht & Hs). cbn in Ht, Hs.
    exists (EvSetParam name v :: evs). split.
    + constructor; [exists v; auto | exact HF].
    + split; [rewrite Ht, <- app_assoc; reflexivity | exact Hs].
Qed.

(** The same loop raises as soon as a name has no value in [d], if not
    before. *)
Lemma set_params_missing base (d : dict value) names name w :
  name ∈ names -> dict_get d name = None ->
  exists e w', for_each names (fun name =>
                 v <- getitem d name ;; call_set_param base name v) w
               = (Raise e, w').
Proof.
  intros Hin Hd. revert w.
  induction names as [| n names IH]; intros w; [inversion Hin |].
  cbn. unfold bind at 1.
  destruct (bind (getitem d n) _ w) as [[[] | e] w1] eqn:H1; [| eauto].
  apply elem_of_cons in Hin as [-> | Hin]; [| apply IH, Hin].
  unfold bind, getitem in H1. rewrite Hd in H1. discriminate.
Qed.

Lemma advance_iteration_Ok md_ w md w' :
  advance_iteration md_ w = (Ok md, w') ->
  exists n md0,
    iter_count (self w) = Some n /\ md_ = Some md0
    /\ md = LocalMeta (meta_name md0) [(n + 1)%Z]
    /\ w' = {| self := set_metadata (Some md)
                         (set_iter_count (Some (n + 1)%Z) (self w));
               model := model w; trace := trace w |}.
Proof.
  unfold advance_iteration, bind, getattr_or, getattr, bind, gets, setattr,
    modify, update_local_meta. cbn.
  destruct (iter_count (self w)) as [n |]; cbn; [| discriminate].
  destruct md_ as [md0 |]; cbn; [| discriminate].
  intros H. inversion H. exists n, md0. repeat split.
Qed.

Lemma store_items_run (items : dict value) (fr : objfunc_frame value) w :
  for_each items (fun no => store_func (fst no) (snd no)) (fr, w)
  = (Ok tt, ({| fail := fail fr;
                func_dict := store_all items (func_dict fr) |}, w)).
Proof.
  revert fr. induction items as [| [k v] items IH]; intros fr; cbn.
  - destruct fr; reflexivity.
  - unfold bind, store_func at 1, modify. cbn. rewrite IH. reflexivity.
Qed.

Lemma harvest_Ok base (fr : objfunc_frame value) w u fr' w' :
  harvest base (fr, w) = (Ok u, (fr', w')) ->
  exists objs cons,
    get_objectives base (model w) = Ok objs
    /\ get_constraints base ctype_all lintype_all (model w) = Ok cons
    /\ func_dict fr' = store_all (objs ++ cons)%list (func_dict fr)
    /\ fail fr' = fail fr /\ w' = w.
Proof.
  unfold harvest. intros H.
  apply bind_Ok_inv in H as (objs & [f1 s1] & Ho & H).
  apply on_snd_Ok in Ho as [Ho ->]. unfold read_model in Ho.
  inversion Ho; subst. clear Ho.
  apply bind_Ok_inv in H as ([] & [f2 s2] & Hs & H).
  rewrite store_items_run in Hs. inversion Hs; subst. clear Hs.
  apply bind_Ok_inv in H as (cons & [f3 s3] & Hc & H).
  apply on_snd_Ok in Hc as [Hc ->]. unfold read_model in Hc.
  inversion Hc; subst. clear Hc.
  rewrite store_items_run in H. inversion H; subst. cbn.
  exists objs, cons. rewrite store_all_app. repeat split; assumption.
Qed.

(** The body of [objfunc], when it ends normally. *)
Lemma objfunc_body_Ok base dv_dict w u fr w1 :
  objfunc_body base dv_dict w = (Ok u, (fr, w1)) ->
  exists pl n md0 evs objs cons m,
    param_list (self w) = Some pl /\ iter_count (self w) = Some n
    /\ metadata (self w) = Some md0
    /\ Forall2 (sets_param dv_dict) pl evs
    /\ get_objectives base m = Ok objs
    /\ get_constraints base ctype_all lintype_all m = Ok cons
    /\ func_dict fr = store_all (objs ++ cons)%list []
    /\ let md := Some (LocalMeta (meta_name md0) [(n + 1)%Z]) in
       self w1 = set_metadata md (set_iter_count (Some (n + 1)%Z) (self w))
       /\ trace w1
          = (trace w ++ evs ++ [EvSolveNonlinear md; EvRecord md])%list.
Proof.
  unfold objfunc_body, objfunc_try. intros H.
  apply bind_Ok_inv in H as ([] & [f1 s1] & Ha & H).
  apply on_snd_Ok in Ha as [Ha ->]. unfold apply_design_vars in Ha.
  apply bind_Ok_inv in Ha as (pl & s0 & Hpl & Ha).
  unfold getattr_or, bind, getattr, gets in Hpl. cbn in Hpl.
  destruct (param_list (self w)) as [pl' |] eqn:Epl; [| discriminate].
  unfold ret in Hpl. inversion Hpl; subst. clear Hpl.
  apply set_params_Ok in Ha as (evs & HF & Ht & Hs).
  apply bind_Ok_inv in H as (md & [f2 s2] & Hadv & H).
  apply on_snd_Ok in Hadv as [Hadv ->].
  apply advance_iteration_Ok in Hadv as (n & md0 & Hn & Hmd & -> & ->).
  apply bind_Ok_inv in H as ([] & [f3 s3] & Hsolve & H).
  apply on_snd_Ok in Hsolve as [Hsolve ->].
  unfold call_solve_nonlinear, bind, log, modify, on_model in Hsolve.
  cbn in Hsolve.
  destruct (solve_nonlinear _ _ _) as [[[] | e] m1]; inversion Hsolve; subst.
  clear Hsolve.
  apply bind_Ok_inv in H as ([] & [f4 s4] & Hh & H).
  apply harvest_Ok in Hh as (objs & cons & Ho & Hc & Hfd & _ & ->).
  apply bind_Ok_inv in H as ([] & [f5 s5] & Hrec & H).
  apply on_snd_Ok in Hrec as [Hrec ->].
  unfold call_record, bind, log, modify, on_model in Hrec. cbn in Hrec.
  destruct (record _ _ _) as [[[] | e] m2]; inversion Hrec; subst.
  clear Hrec.
  unfold set_fail, modify in H. inversion H; subst. cbn in *.
  exists pl, n, md0, evs, objs, cons, m1. rewrite Hs in Hn.
  repeat split; try assumption.
  - rewrite Hs. reflexivity.
  - rewrite Ht, <- !app_assoc. reflexivity.
Qed.
(** ** The evaluation callback: failures before the solve *)

Lemma count_solves_diagnostics (e : exn) (t : list (event value)) :
  count_solves (t ++ diagnostics e) = count_solves t.
Proof. rewrite count_solves_app. unfold count_solves at 2. cbn. lia. Qed.

Lemma trace_with_trace (t : list (event value)) w :
  trace (with_trace t w) = (trace w ++ t)%list.
Proof. reflexivity. Qed.

Lemma apply_design_vars_solves base dv_dict k :
  preserved (fun w => count_solves (trace w) = k)
    (apply_design_vars base dv_dict).
Proof. unfold apply_design_vars. keeps. Qed.

(** X1.  A driver that the set-up of its problem has attached to a root
    system ([base] carries it: lines 244-248 succeed), but that has not
    run yet, has no attribute [param_list]: the evaluation callback
    catches the [AttributeError] of line 251, prints the diagnostics and
    returns the empty dictionary with the flag 1, without a call to the
    model and without a change to the driver. *)
Theorem objfunc_before_run base dv_dict w :
  param_list (self w) = None ->
  exists e,
    exn_class e = AttributeError
    /\ objfunc base dv_dict w
       = (Ok ([], 1%Z), with_trace (diagnostics e) w).
Proof.
  intros H. exists (Exn AttributeError "param_list"). split; [reflexivity |].
  rewrite objfunc_unfold.
  assert (Hb : objfunc_body base dv_dict w
               = (Raise (Exn AttributeError "param_list"),
                  ({| fail := 1; func_dict := [] |}, w))).
  { unfold objfunc_body, objfunc_try, apply_design_vars, bind, on_snd,
      getattr_or, getattr, bind, gets. cbn. rewrite H. cbn.
    destruct w; reflexivity. }
  rewrite Hb. reflexivity.
Qed.

(** X2.  When the evaluation point lacks a value for one of the design
    variables of [param_list], the callback does not solve the model and
    leaves every attribute of the driver as it was; what it returns, if
    it returns, is the empty dictionary with the flag 1. *)
Theorem objfunc_missing_design_variable base dv_dict w pl name :
  param_list (self w) = Some pl ->
  name ∈ pl ->
  dict_get dv_dict name = None ->
  count_solves (trace (snd (objfunc base dv_dict w)))
  = count_solves (trace w)
  /\ self (snd (objfunc base dv_dict w)) = self w
  /\ (forall r w', objfunc base dv_dict w = (Ok r, w') -> r = ([], 1%Z)).
Proof.
  intros Hpl Hin Hd.
  pose proof (apply_design_vars_self base dv_dict (self w) w eq_refl) as Hs.
  pose proof (apply_design_vars_solves base dv_dict _ w eq_refl) as Hc.
  assert (Ha : exists e w1, apply_design_vars base dv_dict w = (Raise e, w1)).
  { unfold apply_design_vars, bind at 1, getattr_or, bind, getattr, gets.
    cbn. rewrite Hpl. cbn.
    destruct (set_params_missing base dv_dict pl name w Hin Hd)
      as (e & w1 & He).
    exists e, w1. destruct w; exact He. }
  destruct Ha as (e & w1 & Ha). rewrite Ha in Hs, Hc. cbn in Hs, Hc.
  assert (Hb : objfunc_body base dv_dict w
               = (Raise e, ({| fail := 1; func_dict := [] |}, w1))).
  { unfold objfunc_body, objfunc_try. unfold bind at 1. unfold on_snd at 1.
    cbn [fst snd]. rewrite Ha. reflexivity. }
  rewrite objfunc_unfold, Hb.
  destruct (isinstance_Exception e); cbn [fst snd].
  - rewrite trace_with_trace, count_solves_diagnostics. split; [exact Hc |].
    split; [exact Hs |]. intros r w' H. inversion H. reflexivity.
  - split; [exact Hc |]. split; [exact Hs |]. intros r w' H. discriminate.
Qed.

(** ** The evaluation callback: success *)

Lemma objfunc_Ok_body base dv_dict w fd w' :
  objfunc base dv_dict w = (Ok (fd, 0%Z), w') ->
  exists u fr, objfunc_body base dv_dict w = (Ok u, (fr, w'))
               /\ func_dict fr = fd.
Proof.
  rewrite objfunc_unfold.
  destruct (objfunc_body base dv_dict w) as [[u | e] [fr w1]].
  - intros H. inversion H; subst. eauto.
  - destruct (isinstance_Exception e); intros H; inversion H.
Qed.

Lemma constraint_names_all base :
  constraint_names base ctype_all lintype_all
  = keys (get_constraint_metadata base).
Proof.
  unfold constraint_names.
  induction (get_constraint_metadata base) as [| nm l IH]; [reflexivity |].
  cbn in IH |- *. destruct (decide True) as [_ | n]; [| destruct (n I)].
  cbn. f_equal. exact IH.
Qed.

(** X3.  An evaluation reported as successful has applied a value to
    every design variable of [param_list], in order, has then advanced
    the counter by one and stored it in the metadata, has solved the
    model once with that metadata and, last, has recorded the iteration
    with the same metadata; these are all its calls. *)
Theorem objfunc_success_calls base dv_dict w fd w' :
  objfunc base dv_dict w = (Ok (fd, 0%Z), w') ->
  exists pl n md0 evs,
    param_list (self w) = Some pl /\ iter_count (self w) = Some n
    /\ metadata (self w) = Some md0
    /\ Forall2 (sets_param dv_dict) pl evs
    /\ let md := Some (LocalMeta (meta_name md0) [(n + 1)%Z]) in
       iter_count (self w') = Some (n + 1)%Z
       /\ metadata (self w') = md
       /\ trace w'
          = (trace w ++ evs ++ [EvSolveNonlinear md; EvRecord md])%list.
Proof.
  intros H. apply objfunc_Ok_body in H as (u & fr & H & _).
  apply objfunc_body_Ok in H
    as (pl & n & md0 & evs & objs & cons & m & Hpl & Hn & Hmd & HF & _ & _
        & _ & Hs & Ht).
  exists pl, n, md0, evs. cbv zeta. rewrite Hs, Ht. cbn. auto 10.
Qed.

(** X4.  The dictionary of an evaluation reported as successful holds,
    for every name, the value of the constraint of that name, or else
    the value of the objective of that name, or else nothing; objectives
    and constraints are read off one state of the model, and the
    constraints are all of them, the linear ones too. *)
Theorem objfunc_success_dict base dv_dict w fd w' :
  objfunc base dv_dict w = (Ok (fd, 0%Z), w') ->
  exists objs cons m,
    get_objectives base m = Ok objs
    /\ get_constraints base ctype_all lintype_all m = Ok cons
    /\ keys cons = keys (get_constraint_metadata base)
    /\ forall name,
        dict_get fd name
        = match dict_get (rev cons) name with
          | Some v => Some v
          | None => dict_get (rev objs) name
          end.
Proof.
  intros H. apply objfunc_Ok_body in H as (u & fr & H & <-).
  apply objfunc_body_Ok in H
    as (pl & n & md0 & evs & objs & cons & m & _ & _ & _ & _ & Ho & Hc
        & Hfd & _).
  exists objs, cons, m. split; [exact Ho |]. split; [exact Hc |]. split.
  - rewrite (get_constraints_keys _ _ _ _ _ Hc). apply constraint_names_all.
  - intros name. rewrite Hfd, store_all_app, !dict_get_store_all. cbn.
    destruct (dict_get (rev cons) name); [reflexivity |].
    destruct (dict_get (rev objs) name); reflexivity.
Qed.

(** ** The gradient callback: its effects *)

(** X5.  The gradient callback never changes an attribute of the driver
    and never solves the model.  With the flag 0 it returns exactly the
    dictionary the model's gradient computation returned for
    [self.quantities]; with the flag 1 it returns the empty dictionary. *)
Theorem gradfunc_effects dv_dict fdict w :
  self (snd (gradfunc dv_dict fdict w)) = self w
  /\ count_solves (trace (snd (gradfunc dv_dict fdict w)))
     = count_solves (trace w)
  /\ (forall sd w',
      gradfunc dv_dict fdict w = (Ok (sd, 0%Z), w') ->
      exists p,
        _problem (self w) = Some p
        /\ calc_gradient p (keys dv_dict) (Names (quantities (self w)))
             "dict" (model w)
           = (Ok sd, model w'))
  /\ (forall sd w',
      gradfunc dv_dict fdict w = (Ok (sd, 1%Z), w') -> sd = []).
Proof.
  assert (H1 : forall (e : event value) t,
             is_solve e = false -> count_solves (t ++ [e]) = count_solves t).
  { intros e t He. rewrite count_solves_app. unfold count_solves at 2. cbn.
    rewrite He. cbn. lia. }
  rewrite gradfunc_unfold. destruct (_problem (self w)) as [p |] eqn:Hp.
  - rewrite (gradfunc_body_Some _ _ _ _ Hp). cbv zeta.
    destruct (calc_gradient p _ _ _ _) as [[sd | e] m'] eqn:Hc.
    + cbn [fst snd self trace]. rewrite trace_with_trace, H1 by reflexivity.
      split; [reflexivity |]. split; [reflexivity |].
      split; intros sd' w' H; inversion H; subst; cbn; eauto.
    + destruct (isinstance_Exception e); cbn [fst snd self trace].
      * repeat (rewrite trace_with_trace || cbn [trace]).
        rewrite count_solves_diagnostics, H1 by reflexivity.
        split; [reflexivity |]. split; [reflexivity |].
        split; intros sd' w' H; inversion H; subst; reflexivity.
      * rewrite trace_with_trace, H1 by reflexivity.
        split; [reflexivity |]. split; [reflexivity |].
        split; intros sd' w' H; inversion H.
  - rewrite (gradfunc_body_None _ _ _ Hp).
    cbn -[with_trace diagnostics count_solves].
    rewrite trace_with_trace, count_solves_diagnostics.
    split; [reflexivity |]. split; [reflexivity |].
    split; intros sd' w' H; inversion H; subst; reflexivity.
Qed.
(** ** What the callbacks keep of the driver *)

Lemma hoare_bind_keeps {St A B} (P : St -> Prop) (Q : res B -> St -> Prop)
    (m : M St A) (k : A -> M St B) :
  preserved P m -> (forall e s, P s -> Q (Raise e) s) ->
  (forall a, hoare P (k a) Q) -> hoare P (bind m k) Q.
Proof.
  intros Hm HQ Hk. apply hoare_bind with (R := fun _ => P); [| exact Hk].
  intros s HP. specialize (Hm s HP). destruct (fst (m s)); auto.
Qed.

Lemma gradfunc_keeps (Pd : pyOptSparseDriver value Model -> Prop)
    dv_dict fdict :
  preserved (fun w => Pd (self w)) (gradfunc dv_dict fdict).
Proof. intros w H. cbn. rewrite gradfunc_self. exact H. Qed.

(** The callbacks assign [iter_count] and [metadata] and no other
    attribute, however the engine calls them. *)
Lemma call_engine_keeps (Pd : pyOptSparseDriver value Model -> Prop)
    base sens (e : engine value) :
  (forall d v, Pd d -> Pd (set_iter_count v d)) ->
  (forall d v, Pd d -> Pd (set_metadata v d)) ->
  preserved (fun w => Pd (self w)) (call_engine base sens e).
Proof.
  intros Hi Hm.
  induction e as [sol | ex | dv k IH | dv fd k IH]; cbn.
  - apply preserved_ret.
  - apply preserved_raise.
  - apply preserved_bind; [| intros r; apply IH].
    apply objfunc_keeps. intros md.
    unfold objfunc_try, objfunc_except, apply_design_vars, advance_iteration,
      harvest. keeps.
  - destruct sens; [apply preserved_raise |].
    apply preserved_bind; [apply gradfunc_keeps | intros r; apply IH].
Qed.

(** ** The end of a run *)

(** When [finalize] raises, it has not yet assigned an attribute. *)
Lemma finalize_Raise_self base pl (sol : Solution value)
    (d : pyOptSparseDriver value Model) :
  hoare (fun w => self w = d) (finalize base pl sol)
    (fun r w' => match r with
                 | Raise _ => self w' = d
                 | Ok _ => True
                 end).
Proof.
  unfold finalize.
  apply hoare_bind_keeps; [keeps | auto | intros pr].
  apply hoare_bind_keeps; [keeps | auto | intros []].
  apply hoare_bind_keeps; [keeps | auto | intros []].
  apply hoare_bind_keeps; [keeps | auto | intros md].
  apply hoare_bind_keeps; [keeps | auto | intros []].
  intros w _. unfold bind, setattr, modify. cbn.
  match goal with
  | |- context [classify_exit sol ?s] =>
      destruct (classify_exit_returns sol s) as (w2 & Hc & _)
  end.
  rewrite Hc. exact I.
Qed.

Lemma finalize_Ok_calls base pl (sol : Solution value) w u w' :
  finalize base pl sol w = (Ok u, w') ->
  exists evs,
    Forall2 (sets_param (getDVs sol)) pl evs
    /\ metadata (self w') = metadata (self w)
    /\ trace w'
       = (trace w
          ++ (if print_results (options (self w))
              then [EvPrintSolution sol] else [])
          ++ evs ++ [EvSolveNonlinear (metadata (self w))])%list.
Proof.
  unfold finalize. intros H.
  apply bind_Ok_inv in H as (pr & s1 & Hpr & H).
  unfold getattr, gets in Hpr. inversion Hpr; subst. clear Hpr.
  apply bind_Ok_inv in H as ([] & s2 & Hp & H).
  assert (Hs2 : self s2 = self s1
                /\ trace s2
                   = (trace s1
                      ++ (if print_results (options (self s1))
                          then [EvPrintSolution sol] else []))%list).
  { destruct (print_results (options (self s1))).
    - unfold log, modify in Hp. inversion Hp. cbn. auto.
    - unfold ret in Hp. inversion Hp. rewrite app_nil_r. auto. }
  destruct Hs2 as [Hs2 Ht2]. clear Hp.
  apply bind_Ok_inv in H as ([] & s3 & Hl & H).
  apply set_params_Ok in Hl as (evs & HF & Ht3 & Hs3).
  apply bind_Ok_inv in H as (md & s4 & Hmd & H).
  unfold getattr, gets in Hmd. inversion Hmd; subst. clear Hmd.
  apply bind_Ok_inv in H as ([] & s5 & Hsolve & H).
  unfold call_solve_nonlinear, bind, log, modify, on_model in Hsolve.
  cbn in Hsolve.
  destruct (solve_nonlinear _ _ _) as [[[] | e] m1]; inversion Hsolve; subst.
  clear Hsolve.
  apply bind_Ok_inv in H as ([] & s6 & Hset & H).
  unfold setattr, modify in Hset. inversion Hset; subst. clear Hset.
  unfold classify_exit, try_except, bind, setattr, modify in H.
  exists evs. split; [exact HF |].
  destruct (optInform sol !! "value") as [v |]; cbn in H;
    [destruct (2 <? v)%Z; cbn in H |]; inversion H; subst; cbn;
    rewrite Hs3, Hs2, Ht3, Ht2, <- !app_assoc; auto.
Qed.

(** X6.  When [run] returns, the last calls it has made are: a
    [set_param] for every registered design variable, in registration
    order, with the value the solution reports for it, and then one solve
    of the model with the metadata of the run; the solution is saved in
    [pyopt_solution]. *)
Theorem run_writes_back_optimum base
    (pyoptsparse : string -> option (Optimizer value)) problem w u w' :
  run base pyoptsparse problem w = (Ok u, w') ->
  exists sol t evs,
    pyopt_solution (self w') = Some sol
    /\ Forall2 (sets_param (getDVs sol)) (keys (get_param_metadata base)) evs
    /\ trace w' = (t ++ evs ++ [EvSolveNonlinear (metadata (self w'))])%list.
Proof.
  unfold run. intros H.
  apply bind_Ok_inv in H as (cfg & w1 & Hc & H).
  apply bind_Ok_inv in H as (opt & w2 & _ & H).
  apply bind_Ok_inv in H as (sol & w3 & _ & H).
  destruct (configure_registered _ _ _ _ _ Hc) as (Hpl & _).
  destruct (finalize_exit_flag _ _ _ _ _ _ H) as (Hsol & _).
  apply finalize_Ok_calls in H as (evs & HF & Hmd & Ht).
  rewrite Hpl in HF. exists sol. eexists. exists evs.
  split; [exact Hsol |]. split; [exact HF |].
  rewrite Ht, Hmd, app_assoc. reflexivity.
Qed.

(** The attributes a failing run must not have touched, phase by phase. *)
Lemma build_registry_keeps_result base problem v :
  preserved (fun w => pyopt_solution (self w) = None /\ exit_flag (self w) = v)
    (build_registry base problem).
Proof.
  unfold build_registry, add_var_groups, add_eq_con, add_ineq_con. keeps.
Qed.

Lemma instantiate_keeps_result
    (pyoptsparse : string -> option (Optimizer value)) v :
  preserved (fun w : world value Model =>
               pyopt_solution (self w) = None /\ exit_flag (self w) = v)
    (instantiate pyoptsparse).
Proof. unfold instantiate. keeps. Qed.

Lemma solve_keeps_result base problem opt opt_prob v :
  preserved (fun w => pyopt_solution (self w) = None /\ exit_flag (self w) = v)
    (solve base problem opt opt_prob).
Proof.
  unfold solve.
  repeat first
    [ apply (call_engine_keeps
               (fun d => pyopt_solution d = None /\ exit_flag d = v));
      [intros d ? Hd; exact Hd | intros d ? Hd; exact Hd]
    | keeps_step ].
Qed.

(** X7.  A [run] that raises, wherever it raises, leaves
    [pyopt_solution] at [None] and [exit_flag] as it was before the run:
    the two are assigned last, once the final solve is made. *)
Theorem run_failure_state base
    (pyoptsparse : string -> option (Optimizer value)) problem w e w' :
  run base pyoptsparse problem w = (Raise e, w') ->
  pyopt_solution (self w') = None
  /\ exit_flag (self w') = exit_flag (self w).
Proof.
  intros H.
  set (P := fun w0 : world value Model =>
              pyopt_solution (self w0) = None
              /\ exit_flag (self w0) = exit_flag (self w)).
  assert (Hrun : hoare (fun w0 => w0 = w) (run base pyoptsparse problem)
                   (fun r w0 => match r with
                                | Raise _ => P w0
                                | Ok _ => True
                                end)).
  { unfold run, configure.
    apply hoare_bind with (R := fun _ => P).
    - apply hoare_bind with (R := fun _ => P).
      + intros w0 ->. rewrite initial_run_unfold. cbv zeta.
        destruct (solve_nonlinear _ _ _) as [[[] | e0] m']; split; reflexivity.
      + intros []. intros w0 HP.
        pose proof (build_registry_keeps_result base problem _ w0 HP) as Hk.
        destruct (fst (build_registry base problem w0)); exact Hk.
    - intros cfg.
      apply hoare_bind_keeps;
        [apply instantiate_keeps_result | auto | intros opt].
      apply hoare_bind_keeps; [apply solve_keeps_result | auto | intros sol].
      intros w0 [Hp He].
      pose proof (finalize_Raise_self base (snd cfg) sol (self w0) w0 eq_refl)
        as Hf.
      destruct (fst (finalize base (snd cfg) sol w0)); [exact I |].
      unfold P. rewrite Hf. split; assumption. }
  specialize (Hrun w eq_refl). rewrite H in Hrun. exact Hrun.
Qed.

(** X8.  When the solving phase raises, whether the engine fails, a
    callback lets an interrupt through or the finite-difference step is
    missing, [_problem] stays set to the problem of the run: it is reset
    to [None] only when the engine returns. *)
Theorem solve_failure_keeps_problem base problem opt opt_prob w e w' :
  solve base problem opt opt_prob w = (Raise e, w') ->
  _problem (self w') = Some problem.
Proof.
  intros H.
  set (P := fun w0 : world value Model => _problem (self w0) = Some problem).
  assert (Hs : hoare (fun _ => True) (solve base problem opt opt_prob)
                 (fun r w0 => match r with
                              | Raise _ => P w0
                              | Ok _ => True
                              end)).
  { unfold solve.
    apply hoare_bind with (R := fun _ => P).
    { intros w0 _. reflexivity. }
    intros [].
    apply hoare_bind_keeps; [keeps | auto | intros diff].
    apply hoare_bind_keeps; [| auto | intros sol].
    - repeat first
        [ apply (call_engine_keeps (fun d => _problem d = Some problem));
          [intros d ? Hd; exact Hd | intros d ? Hd; exact Hd]
        | keeps_step ].
    - intros w0 _. exact I. }
  specialize (Hs w I). rewrite H in Hs. exact Hs.
Qed.
(** ** Gradients and the engine's own finite differences *)

Lemma calc_gradient_calls_log c (e : event value) t :
  calc_gradient_calls [e] = [] ->
  calc_gradient_calls t = c ->
  calc_gradient_calls (t ++ [e]) = c.
Proof.
  intros He Ht. rewrite calc_gradient_calls_app, He, Ht. apply app_nil_r.
Qed.

#[local] Hint Resolve calc_gradient_calls_log : keeps.

Lemma objfunc_no_gradient base dv_dict c :
  preserved (fun w => calc_gradient_calls (trace w) = c)
    (objfunc base dv_dict).
Proof.
  apply objfunc_keeps. intros md.
  unfold objfunc_try, objfunc_except, apply_design_vars, advance_iteration,
    harvest. keeps.
Qed.

Lemma call_engine_fd_no_gradient base step (e : engine value) c :
  preserved (fun w => calc_gradient_calls (trace w) = c)
    (call_engine base (sens_FD step) e).
Proof.
  induction e as [sol | ex | dv k IH | dv fd k IH]; cbn.
  - apply preserved_ret.
  - apply preserved_raise.
  - apply preserved_bind; [apply objfunc_no_gradient | intros r; apply IH].
  - apply preserved_raise.
Qed.


(** ** The options of the optimizer *)

Lemma log_then_ret {A} (e : event value) (x : A) w :
  (log e ;;; ret x) w = (Ok x, with_trace [e] w).
Proof. reflexivity. Qed.

Lemma set_options_run (settings acc : dict value) w :
  for_fold settings acc (fun o ov =>
    log (EvSetOption (fst ov) (snd ov)) ;;;
    ret (dict_set o (fst ov) (snd ov))) w
  = (Ok (store_all settings acc),
     with_trace (map (fun ov => EvSetOption (fst ov) (snd ov)) settings) w).
Proof.
  revert acc w. induction settings as [| [k v] settings IH]; intros acc w.
  - cbn. unfold ret, with_trace. rewrite app_nil_r. destruct w; reflexivity.
  - cbn [for_fold]. unfold bind at 1. cbn beta. rewrite log_then_ret, IH.
    unfold with_trace. cbn. rewrite <- app_assoc. reflexivity.
Qed.

(** X10.  When the optimizer class is found, [run] instantiates it and
    calls [setOption] once for every entry of [opt_settings], in the
    order of the dictionary, and does nothing else before the solving
    phase; the options the instance holds are those entries. *)
Theorem instantiate_sets_options
    (pyoptsparse : string -> option (Optimizer value)) w cls opts w' :
  instantiate pyoptsparse w = (Ok (cls, opts), w') ->
  pyoptsparse (optimizer (options (self w))) = Some cls
  /\ opts = store_all (opt_settings (self w)) []
  /\ w' = with_trace
            (map (fun ov => EvSetOption (fst ov) (snd ov))
               (opt_settings (self w))) w.
Proof.
  unfold instantiate. intros H.
  apply bind_Ok_inv in H as (name & s1 & Hn & H).
  unfold getattr, gets in Hn. inversion Hn; subst. clear Hn.
  apply bind_Ok_inv in H as (c & s2 & Hc & H).
  unfold try_except in Hc.
  destruct (pyoptsparse (optimizer (options (self s1)))) as [c' |] eqn:Hp;
    cbn in Hc; [| discriminate].
  inversion Hc; subst. clear Hc.
  apply bind_Ok_inv in H as (settings & s3 & Hs & H).
  unfold getattr, gets in Hs. inversion Hs; subst. clear Hs.
  apply bind_Ok_inv in H as (o & s4 & Hf & H).
  rewrite set_options_run in Hf. inversion Hf; subst. clear Hf.
  unfold ret in H. inversion H; subst. auto.
Qed.
(** ** The registry, call by call *)

Lemma add_var_group_of (pv : dict value) op nm w op' w' :
  (v <- getitem pv (fst nm) ;;
   reg (addVarGroup (fst nm) (pm_size (snd nm)) "c" v
          (pm_low (snd nm)) (pm_high (snd nm))) op) w = (Ok op', w') ->
  exists c : reg_call value, op' = register c op /\ var_group_of pv nm c.
Proof.
  intros H. apply bind_Ok_inv in H as (v & w1 & Hv & H).
  unfold getitem in Hv. destruct (dict_get pv (fst nm)) as [v' |] eqn:Hd;
    [| discriminate].
  unfold ret in Hv. inversion Hv; subst.
  apply reg_Ok in H. eexists. split; [exact H |]. exists v. auto.
Qed.

(** The two loops over constraints, with the bounds they pass on. *)
Ltac con_group_bounds H name :=
  let meta := fresh "meta" in
  let Hm := fresh "Hm" in
  let Hr := fresh "Hr" in
  let Hl := fresh "Hl" in
  apply bind_Ok_inv in H as (meta & ? & Hm & H);
  destruct (dict_get _ name) eqn:?; [| discriminate];
  unfold ret in Hm; inversion Hm; subst; clear Hm;
  apply bind_Ok_inv in H as (? & ? & Hr & H);
  destruct (relevant _ !! name) eqn:?; [| discriminate];
  unfold ret in Hr; inversion Hr; subst; clear Hr;
  destruct (cm_linear meta) eqn:Hl;
  [ apply bind_Ok_inv in H as (? & ? & _ & H);
    apply bind_Ok_inv in H as (? & ? & _ & H) | ];
  apply reg_Ok in H; eexists; (split; [exact H |]);
  exists meta; rewrite Hl; do 2 eexists;
  (split; [eassumption |]); (split; [eassumption |]);
  (split; [reflexivity |]); intros; (discriminate || reflexivity).

Lemma add_eq_con_of base problem pl op name w op' w' :
  add_eq_con base (root problem) pl op name w = (Ok op', w') ->
  exists c, op' = register c op /\ eq_group_of base problem pl name c.
Proof.
  unfold add_eq_con, getitem, relevant_of. intros H. con_group_bounds H name.
Qed.

Lemma add_ineq_con_of base problem pl op name w op' w' :
  add_ineq_con base (root problem) pl op name w = (Ok op', w') ->
  exists c, op' = register c op /\ ineq_group_of base problem pl name c.
Proof.
  unfold add_ineq_con, getitem, relevant_of. intros H.
  con_group_bounds H name.
Qed.

Lemma build_registry_calls base problem w cfg w1 :
  build_registry base problem w = (Ok cfg, w1) ->
  exists params objs vcalls ecalls icalls,
    get_params base (model w) = Ok params
    /\ get_objectives base (model w) = Ok objs
    /\ opt_calls (fst cfg)
       = (vcalls ++ [finalizeDesignVariables] ++ map addObj (keys objs)
          ++ ecalls ++ icalls)%list
    /\ Forall2 (var_group_of params) (get_param_metadata base) vcalls
    /\ Forall2 (eq_group_of base problem (keys (get_param_metadata base)))
         (constraint_names base ctype_eq lintype_nonlinear) ecalls
    /\ Forall2 (ineq_group_of base problem (keys (get_param_metadata base)))
         (constraint_names base ctype_ineq lintype_nonlinear) icalls.
Proof.
  unfold build_registry. intros H.
  apply bind_Ok_inv in H as (ttl & s1 & Ht & H).
  unfold getattr, gets in Ht. inversion Ht; subst. clear Ht.
  apply bind_Ok_inv in H as ([] & s2 & Hs & H).
  unfold setattr, modify in Hs. inversion Hs; subst. clear Hs.
  apply bind_Ok_inv in H as (pv & s3 & Hpv & H).
  unfold read_model in Hpv. cbn in Hpv. inversion Hpv; subst. clear Hpv.
  apply bind_Ok_inv in H as (op1 & s4 & Hv & H).
  assert (M4 : model s4 = model s1).
  { eapply (preserved_run (fun w0 => model w0 = model s1));
      [| exact Hv | reflexivity]. unfold add_var_groups. keeps. }
  apply bind_Ok_inv in H as (op2 & s5 & Hf & H).
  assert (M5 : model s5 = model s1).
  { eapply (preserved_run (fun w0 => model w0 = model s1));
      [| exact Hf | exact M4]. keeps. }
  apply bind_Ok_inv in H as (objs & s6 & Hobj & H).
  unfold read_model in Hobj. inversion Hobj; subst. clear Hobj.
  apply bind_Ok_inv in H as ([] & s7 & _ & H).
  apply bind_Ok_inv in H as (op3 & s8 & Ho & H).
  apply bind_Ok_inv in H as (lc & s9 & _ & H).
  apply bind_Ok_inv in H as ([] & s10 & _ & H).
  apply bind_Ok_inv in H as (econs & s11 & He & H).
  apply bind_Ok_inv in H as (q1 & s12 & _ & H).
  apply bind_Ok_inv in H as ([] & s13 & _ & H).
  apply bind_Ok_inv in H as (op4 & s14 & Hec & H).
  apply bind_Ok_inv in H as (incons & s15 & Hi & H).
  apply bind_Ok_inv in H as (q2 & s16 & _ & H).
  apply bind_Ok_inv in H as ([] & s17 & _ & H).
  apply bind_Ok_inv in H as (op5 & s18 & Hic & H).
  unfold ret in H. inversion H; subst; clear H. cbn [fst snd].
  unfold read_model in He, Hi. inversion He as [[Hek Hes]].
  inversion Hi as [[Hik His]]. clear He Hi.
  apply get_constraints_keys in Hek. apply get_constraints_keys in Hik.
  unfold add_var_groups in Hv.
  eapply for_fold_calls in Hv as (vcalls & Hvc & HvF);
    [| intros; eapply add_var_group_of; eassumption].
  apply reg_Ok in Hf. subst op2.
  eapply (for_fold_calls (fun name c => c = addObj name)) in Ho
    as (ocalls & Hoc & HoF);
    [| intros ? ? ? ? ? Hr; apply reg_Ok in Hr; eauto].
  eapply for_fold_calls in Hec as (ecalls & Hecc & HeF);
    [| intros; eapply add_eq_con_of; eassumption].
  eapply for_fold_calls in Hic as (icalls & Hicc & HiF);
    [| intros; eapply add_ineq_con_of; eassumption].
  assert (Hom : ocalls = map addObj (keys objs)).
  { clear -HoF. induction HoF; cbn; [reflexivity | congruence]. }
  exists pv, objs, vcalls, ecalls, icalls.
  split; [congruence |]. split; [congruence |]. split.
  { rewrite Hicc, Hecc, Hoc. cbn. rewrite Hvc, Hom. cbn.
    rewrite <- !app_assoc. reflexivity. }
  rewrite <- Hek, <- Hik. auto.
Qed.

Lemma Forall2_lookup_call {A B} (R : A -> B -> Prop) (l : list A)
    (k rest : list B) (i : nat) x :
  Forall2 R l k -> l !! i = Some x ->
  exists y, ((k ++ rest)%list : list B) !! i = Some y /\ R x y.
Proof.
  intros HF. revert i. induction HF as [| a b l k Hab _ IH]; intros i Hi.
  - destruct i; discriminate.
  - destruct i as [| i]; cbn in Hi |- *.
    + inversion Hi; subst. eauto.
    + apply IH, Hi.
Qed.

Lemma registered_objs_none {A} (R : A -> reg_call value -> Prop) l cs :
  (forall x c, R x c -> registered_objs [c] = []) ->
  Forall2 R l cs -> registered_objs cs = [].
Proof.
  intros HR. induction 1 as [| x c l cs Hxc _ IH]; [reflexivity |].
  change (c :: cs) with ([c] ++ cs)%list.
  rewrite registered_objs_app, (HR _ _ Hxc), IH. reflexivity.
Qed.

(** X11.  The registry starts with the design variables: the call number
    [i] on the [Optimization] object registers the design variable number
    [i] of the parameter metadata as a continuous group, with its size,
    its bounds, and the value it has in the model once the initial solve
    is made; the call after the last of them finalizes the design
    variables.  The objectives come next, by name, in the order of
    [get_objectives]. *)
Theorem registry_design_variables base problem w cfg w1 :
  configure base problem w = (Ok cfg, w1) ->
  exists s params objs,
    initial_run problem w = (Ok tt, s)
    /\ get_params base (model s) = Ok params
    /\ get_objectives base (model s) = Ok objs
    /\ (forall i nm,
        get_param_metadata base !! i = Some nm ->
        exists v,
          dict_get params (fst nm) = Some v
          /\ opt_calls (fst cfg) !! i
             = Some (addVarGroup (fst nm) (pm_size (snd nm)) "c" v
                       (pm_low (snd nm)) (pm_high (snd nm))))
    /\ opt_calls (fst cfg) !! length (get_param_metadata base)
       = Some finalizeDesignVariables
    /\ registered_objs (opt_calls (fst cfg)) = keys objs.
Proof.
  intros H. apply configure_Ok in H as (s & Hi & H).
  apply build_registry_calls in H
    as (params & objs & vcalls & ecalls & icalls & Hp & Ho & Hc & Hv & He
        & Hin).
  exists s, params, objs. split; [exact Hi |]. split; [exact Hp |].
  split; [exact Ho |]. split; [| split].
  - intros i nm Hnm. rewrite Hc.
    destruct (Forall2_lookup_call _ _ _
                ([finalizeDesignVariables] ++ map addObj (keys objs)
                 ++ ecalls ++ icalls)%list _ _ Hv Hnm)
      as (c & Hl & v & Hd & ->).
    exists v. split; [exact Hd | exact Hl].
  - rewrite Hc. rewrite (Forall2_length _ _ _ Hv).
    rewrite lookup_app_r by lia. rewrite Nat.sub_diag. reflexivity.
  - assert (Hv0 : registered_objs vcalls = []).
    { eapply registered_objs_none; [| exact Hv].
      intros nm c (v & _ & ->). reflexivity. }
    assert (He0 : registered_objs ecalls = []).
    { eapply registered_objs_none; [| exact He].
      intros n c (m & r & j & _ & _ & -> & _). reflexivity. }
    assert (Hi0 : registered_objs icalls = []).
    { eapply registered_objs_none; [| exact Hin].
      intros n c (m & r & j & _ & _ & -> & _). reflexivity. }
    destruct (objs_registered (keys objs)) as (_ & Ho2 & _).
    rewrite Hc, !registered_objs_app, Hv0, He0, Hi0, Ho2. cbn.
    apply app_nil_r.
Qed.
Lemma dict_get_Some_elem_of {V} (d : dict V) k v :
  dict_get d k = Some v -> (k, v) ∈ d.
Proof.
  induction d as [| [k0 v0] d IH]; cbn; [discriminate |].
  destruct (String.eqb k0 k) eqn:Hk.
  - apply String.eqb_eq in Hk. intros H. inversion H; subst. left.
  - intros H. right. apply IH, H.
Qed.

(** X12.  With constraint names that are unique, every constraint that
    is not linear is registered as one group with its size, flagged
    nonlinear and without a Jacobian, with respect to its relevant set
    intersected with the design variables: an equality constraint with
    its target as both bounds, an inequality constraint with its own
    lower and upper bounds, either of which may be open. *)
Theorem registry_bounds base problem w cfg w1 :
  NoDup (keys (get_constraint_metadata base)) ->
  configure base problem w = (Ok cfg, w1) ->
  forall name meta,
    (name, meta) ∈ get_constraint_metadata base ->
    cm_linear meta = false ->
    exists rs,
      relevant (root problem) !! name = Some rs
      /\ addConGroup name (cm_size meta)
           (if is_equality meta then cm_equals meta else cm_lower meta)
           (if is_equality meta then cm_equals meta else cm_upper meta)
           false (rs ∩ list_to_set (keys (get_param_metadata base))) None
         ∈ opt_calls (fst cfg).
Proof.
  intros Hnd H name meta Hin Hl.
  apply configure_Ok in H as (s & _ & H).
  apply build_registry_calls in H
    as (params & objs & vcalls & ecalls & icalls & _ & _ & Hc & _ & He & Hi).
  rewrite Hc. destruct (is_equality meta) eqn:Heq.
  - assert (Hn : name ∈ constraint_names base ctype_eq lintype_nonlinear).
    { apply elem_of_constraint_names. exists meta. split; [exact Hin |].
      unfold selects. rewrite Hl, Heq. reflexivity. }
    destruct (Forall2_elem_of_l _ _ _ _ He Hn)
      as (c & Hcin & meta' & rs & jac & Hd & Hrel & -> & Hj).
    apply dict_get_Some_elem_of in Hd.
    rewrite (NoDup_keys_agree _ _ _ _ Hnd Hd Hin) in *.
    rewrite Hl in *. rewrite (Hj eq_refl) in Hcin.
    exists rs. split; [exact Hrel |]. rewrite !elem_of_app. auto.
  - assert (Hn : name ∈ constraint_names base ctype_ineq lintype_nonlinear).
    { apply elem_of_constraint_names. exists meta. split; [exact Hin |].
      unfold selects. rewrite Hl, Heq. reflexivity. }
    destruct (Forall2_elem_of_l _ _ _ _ Hi Hn)
      as (c & Hcin & meta' & rs & jac & Hd & Hrel & -> & Hj).
    apply dict_get_Some_elem_of in Hd.
    rewrite (NoDup_keys_agree _ _ _ _ Hnd Hd Hin) in *.
    rewrite Hl in *. rewrite (Hj eq_refl) in Hcin.
    exists rs. split; [exact Hrel |]. rewrite !elem_of_app. auto.
Qed.
(** ** The Jacobian of the linear constraints *)

(** X13.  Building the registry calls the model's gradient computation
    once when there are linear constraints, handing over the registered
    design variables and the values of those constraints, and stores the
    result in [lin_jacs]; when there are none it makes no such call and
    leaves [lin_jacs] as an earlier run left it. *)
Theorem linear_jacobian_once base problem w cfg w1 :
  build_registry base problem w = (Ok cfg, w1) ->
  let linear := constraint_names base ctype_all lintype_linear in
  (linear = [] ->
   lin_jacs (self w1) = lin_jacs (self w)
   /\ calc_gradient_calls (trace w1) = calc_gradient_calls (trace w))
  /\ (linear <> [] ->
      exists lcons m m',
        keys lcons = linear
        /\ calc_gradient problem (keys (get_param_metadata base))
             (Values (values lcons)) "dict" m
           = (Ok (lin_jacs (self w1)), m')
        /\ calc_gradient_calls (trace w1)
           = (calc_gradient_calls (trace w)
              ++ [(keys (get_param_metadata base), Values (values lcons),
                   "dict")])%list).
Proof.
  intros H. cbv zeta. set (linear := constraint_names base ctype_all lintype_linear).
  unfold build_registry in H.
  assert (Hpre : forall A (m : M (world value Model) A) s a s',
             m s = (Ok a, s') ->
             preserved (fun w0 => lin_jacs (self w0) = lin_jacs (self s)) m ->
             preserved (fun w0 => calc_gradient_calls (trace w0)
                                  = calc_gradient_calls (trace s)) m ->
             lin_jacs (self s') = lin_jacs (self s)
             /\ calc_gradient_calls (trace s')
                = calc_gradient_calls (trace s)).
  { intros A m s a s' Hm H1 H2. split.
    - exact (preserved_run _ _ _ _ _ H1 Hm eq_refl).
    - exact (preserved_run _ _ _ _ _ H2 Hm eq_refl). }
  apply bind_Ok_inv in H as (ttl & s1 & H1 & H).
  destruct (Hpre _ _ _ _ _ H1) as [J1 C1]; [keeps | keeps |].
  apply bind_Ok_inv in H as ([] & s2 & H2 & H).
  destruct (Hpre _ _ _ _ _ H2) as [J2 C2]; [keeps | keeps |].
  apply bind_Ok_inv in H as (pv & s3 & H3 & H).
  destruct (Hpre _ _ _ _ _ H3) as [J3 C3]; [keeps | keeps |].
  apply bind_Ok_inv in H as (op1 & s4 & H4 & H).
  destruct (Hpre _ _ _ _ _ H4) as [J4 C4];
    [unfold add_var_groups; keeps | unfold add_var_groups; keeps |].
  apply bind_Ok_inv in H as (op2 & s5 & H5 & H).
  destruct (Hpre _ _ _ _ _ H5) as [J5 C5]; [keeps | keeps |].
  apply bind_Ok_inv in H as (objs & s6 & H6 & H).
  destruct (Hpre _ _ _ _ _ H6) as [J6 C6]; [keeps | keeps |].
  apply bind_Ok_inv in H as ([] & s7 & H7 & H).
  destruct (Hpre _ _ _ _ _ H7) as [J7 C7]; [keeps | keeps |].
  apply bind_Ok_inv in H as (op3 & s8 & H8 & H).
  destruct (Hpre _ _ _ _ _ H8) as [J8 C8]; [keeps | keeps |].
  apply bind_Ok_inv in H as (lc & s9 & H9 & H).
  assert (K9 : s9 = s8 /\ keys lc = linear).
  { unfold read_model in H9. inversion H9 as [[Hg Hs]]. split; [reflexivity |].
    apply get_constraints_keys in Hg. exact Hg. }
  destruct K9 as [-> Klc]. clear H9.
  apply bind_Ok_inv in H as ([] & s10 & Hlin & H).
  assert (Hrest : lin_jacs (self w1) = lin_jacs (self s10)
                  /\ calc_gradient_calls (trace w1)
                     = calc_gradient_calls (trace s10)).
  { eapply Hpre; [exact H | |];
      unfold add_eq_con, add_ineq_con; keeps. }
  destruct Hrest as [Jr Cr]. clear H.
  assert (J8' : lin_jacs (self s8) = lin_jacs (self w)) by congruence.
  assert (C8' : calc_gradient_calls (trace s8) = calc_gradient_calls (trace w))
    by congruence.
  assert (Hlen : values lc = [] <-> linear = []).
  { rewrite <- Klc. unfold values, keys. destruct lc; cbn; split;
      intros; (reflexivity || discriminate). }
  destruct (0 <? Z.of_nat (length (values lc)))%Z eqn:Hz.
  - assert (Hne : linear <> []).
    { intros Hl. apply Hlen in Hl. rewrite Hl in Hz. discriminate. }
    split; [intros Hl; contradiction |]. intros _.
    apply bind_Ok_inv in Hlin as (lj & s' & Hcall & Hset).
    unfold call_calc_gradient, bind, log, modify, on_model in Hcall.
    cbn in Hcall.
    destruct (calc_gradient problem _ _ _ _) as [[sd | e] m'] eqn:Hcg;
      inversion Hcall; subst. clear Hcall.
    unfold setattr, modify in Hset. inversion Hset; subst. clear Hset.
    cbn in Jr, Cr. exists lc, (model s8), m'.
    split; [exact Klc |]. split; [rewrite Jr; exact Hcg |].
    rewrite Cr, calc_gradient_calls_app, C8'. reflexivity.
  - unfold ret in Hlin. inversion Hlin; subst. clear Hlin.
    split; [intros _; split; congruence |].
    intros Hne. exfalso. apply Hne, Hlen.
    destruct (values lc); [reflexivity |]. cbn in Hz. discriminate.
Qed.

(** ** The dictionary of a failed evaluation *)

Lemma preserved_on_snd_fst {F St A} (Pf : F -> Prop) (m : M St A) :
  preserved (fun fs : F * St => Pf (fst fs)) (on_snd m).
Proof.
  intros [f s] H. unfold on_snd. cbn. destruct (m s). exact H.
Qed.

(** X14.  The dictionary an evaluation returns with the flag 1 is empty,
    or, when reading the constraints raised, holds the objectives alone,
    or, when only the recording raised, holds the objectives and the
    constraints. *)
Theorem objfunc_failure_dict base dv_dict w fd w' :
  objfunc base dv_dict w = (Ok (fd, 1%Z), w') ->
  fd = []
  \/ exists objs m,
       get_objectives base m = Ok objs
       /\ (fd = store_all objs []
           \/ exists cons,
                get_constraints base ctype_all lintype_all m = Ok cons
                /\ fd = store_all (objs ++ cons)%list []).
Proof.
  intros H.
  set (D := fun fd : dict value =>
              fd = []
              \/ exists objs m,
                   get_objectives base m = Ok objs
                   /\ (fd = store_all objs []
                       \/ exists cons,
                            get_constraints base ctype_all lintype_all m
                            = Ok cons
                            /\ fd = store_all (objs ++ cons)%list [])).
  set (E := fun fs : objfunc_frame value * world value Model =>
              func_dict (fst fs) = []).
  set (F := fun fs : objfunc_frame value * world value Model =>
              D (func_dict (fst fs))).
  assert (Hh : hoare E (harvest base)
                 (fun r fs => match r with
                              | Ok _ => F fs
                              | Raise _ => F fs
                              end)).
  { intros [fr s] He. unfold E in He. cbn in He.
    unfold harvest, bind, on_snd, read_model. cbn.
    destruct (get_objectives base (model s)) as [objs | e] eqn:Ho; cbn;
      [| left; exact He].
    rewrite store_items_run. cbn.
    destruct (get_constraints base ctype_all lintype_all (model s))
      as [cons | e] eqn:Hc; cbn.
    - rewrite store_items_run. cbn. right. exists objs, (model s).
      split; [exact Ho |]. right. exists cons. split; [exact Hc |].
      rewrite He, store_all_app. reflexivity.
    - right. exists objs, (model s). split; [exact Ho |]. left.
      rewrite He. reflexivity. }
  assert (Hb : hoare E (objfunc_try base (metadata (self w)) dv_dict)
                 (fun r fs => match r with
                              | Ok _ => True
                              | Raise _ => F fs
                              end)).
  { unfold objfunc_try.
    assert (HEF : forall (e' : exn) fs, E fs -> F fs)
      by (intros ? ? He; left; exact He).
    apply hoare_bind_keeps; [apply (preserved_on_snd_fst (fun fr => func_dict fr = [])) | auto
      | intros []].
    apply hoare_bind_keeps; [apply (preserved_on_snd_fst (fun fr => func_dict fr = [])) | auto
      | intros md].
    apply hoare_bind_keeps; [apply (preserved_on_snd_fst (fun fr => func_dict fr = [])) | auto
      | intros []].
    apply hoare_bind with (R := fun _ => F).
    { intros fs He. specialize (Hh fs He). destruct (fst (harvest base fs));
        exact Hh. }
    intros [].
    apply hoare_bind_keeps;
      [apply (preserved_on_snd_fst (fun fr => D (func_dict fr))) | auto
      | intros []].
    intros fs _. exact I. }
  rewrite objfunc_unfold in H.
  specialize (Hb ({| fail := 1; func_dict := [] |}, w) eq_refl).
  fold (objfunc_body base dv_dict w) in Hb.
  destruct (objfunc_body base dv_dict w) as [[u | e] [fr s]] eqn:Hbody.
  - apply objfunc_body_Ok_fail in Hbody. inversion H; subst. congruence.
  - cbn in Hb. destruct (isinstance_Exception e); inversion H; subst.
    exact Hb.
Qed.

(** ** Requests for an optimizer *)

(** [run] and the callbacks read the options and never assign them. *)
Lemma run_options base pyoptsparse problem o :
  preserved (fun w => options (self w) = o) (run base pyoptsparse problem).
Proof.
  unfold run. apply preserved_bind; [apply configure_options | intros cfg].
  apply preserved_bind; [unfold instantiate; keeps | intros opt].
  apply preserved_bind;
    [| intros sol; unfold finalize, classify_exit; keeps].
  unfold solve.
  repeat first
    [ apply (call_engine_keeps (fun d => options d = o));
      [intros; assumption | intros; assumption]
    | keeps_step ].
Qed.

Lemma objfunc_options base dv_dict o :
  preserved (fun w => options (self w) = o) (objfunc base dv_dict).
Proof.
  apply objfunc_keeps. intros md.
  unfold objfunc_try, objfunc_except, apply_design_vars, advance_iteration,
    harvest. keeps.
Qed.

(** Every request leaves an optimizer of the declared values in place. *)
Lemma serve_supported base (r : request value Model) :
  preserved (fun w => optimizer (options (self w)) ∈ optimizer_values)
    (serve base r).
Proof.
  intros w Hw. destruct r as [name | py problem | dv | dv fd]; cbn.
  - unfold set_optimizer. destruct (decide (name ∈ optimizer_values)).
    + cbn. assumption.
    + cbn. assumption.
  - pose proof (run_options base py problem _ w eq_refl) as H.
    cbn in H. rewrite H. exact Hw.
  - pose proof (objfunc_options base dv _ w eq_refl) as H.
    unfold bind. destruct (objfunc base dv w) as [[r | e] w']; cbn in *;
      rewrite H; exact Hw.
  - pose proof (gradfunc_keeps (fun d => options d = options (self w))
                  dv fd w eq_refl) as H.
    unfold bind. destruct (gradfunc dv fd w) as [[r | e] w']; cbn in *;
      rewrite H; exact Hw.
Qed.

Lemma session_supported base (rs : list (request value Model)) w :
  optimizer (options (self w)) ∈ optimizer_values ->
  optimizer (options (self (session base rs w))) ∈ optimizer_values.
Proof.
  revert w. induction rs as [| r rs IH]; intros w Hw; [exact Hw |].
  cbn. apply IH. exact (serve_supported base r w Hw).
Qed.


End Properties.

(** * The session of [Example], evaluated *)

(** ** C1 *)

(** A solve that diverges with an ordinary exception is isolated; an
    interrupt from the keyboard, during the solve or during the gradient
    computation, is not. *)
Lemma callbacks_isolate_Exception_witness :
  (objfunc_body Example.diverging_base [("x", 2%Z)] Example.w_solving
   = (Raise (Exn RuntimeError "diverged"),
      snd (objfunc_body Example.diverging_base [("x", 2%Z)]
             Example.w_solving))
   /\ fst (objfunc Example.diverging_base [("x", 2%Z)] Example.w_solving)
      = Ok ([], 1%Z))
  /\ (objfunc_body Example.interrupted_base [("x", 2%Z)] Example.w_solving
      = (Raise (Exn KeyboardInterrupt ""),
         snd (objfunc_body Example.interrupted_base [("x", 2%Z)]
                Example.w_solving))
      /\ fst (objfunc Example.interrupted_base [("x", 2%Z)]
                Example.w_solving)
         = Raise (Exn KeyboardInterrupt ""))
  /\ (gradfunc_body [("x", 2%Z)] [] Example.w_interrupted
      = (Raise (Exn KeyboardInterrupt ""),
         snd (gradfunc_body [("x", 2%Z)] [] Example.w_interrupted))
      /\ fst (gradfunc [("x", 2%Z)] [] Example.w_interrupted)
         = Raise (Exn KeyboardInterrupt "")).
Proof.
  assert (Hd : objfunc_body Example.diverging_base [("x", 2%Z)]
                 Example.w_solving
               = (Raise (Exn RuntimeError "diverged"),
                  (fst (snd (objfunc_body Example.diverging_base
                               [("x", 2%Z)] Example.w_solving)),
                   snd (snd (objfunc_body Example.diverging_base
                               [("x", 2%Z)] Example.w_solving)))))
    by (vm_compute; reflexivity).
  assert (Hi : objfunc_body Example.interrupted_base [("x", 2%Z)]
                 Example.w_solving
               = (Raise (Exn KeyboardInterrupt ""),
                  (fst (snd (objfunc_body Example.interrupted_base
                               [("x", 2%Z)] Example.w_solving)),
                   snd (snd (objfunc_body Example.interrupted_base
                               [("x", 2%Z)] Example.w_solving)))))
    by (vm_compute; reflexivity).
  assert (Hg : gradfunc_body [("x", 2%Z)] [] Example.w_interrupted
               = (Raise (Exn KeyboardInterrupt ""),
                  (fst (snd (gradfunc_body [("x", 2%Z)] []
                               Example.w_interrupted)),
                   snd (snd (gradfunc_body [("x", 2%Z)] []
                               Example.w_interrupted)))))
    by (vm_compute; reflexivity).
  split; [| split].
  - split; [vm_compute; reflexivity |].
    destruct (callbacks_isolate_Exception Example.diverging_base
                [("x", 2%Z)] [] Example.w_solving) as (H & _).
    rewrite (H _ _ _ Hd eq_refl). vm_compute; reflexivity.
  - split; [vm_compute; reflexivity |].
    destruct (callbacks_isolate_Exception Example.interrupted_base
                [("x", 2%Z)] [] Example.w_solving) as (_ & H & _).
    rewrite (H _ _ _ Hi eq_refl). reflexivity.
  - split; [vm_compute; reflexivity |].
    destruct (callbacks_isolate_Exception Example.base
                [("x", 2%Z)] [] Example.w_interrupted)
      as (_ & _ & _ & _ & H & _).
    rewrite (H _ _ _ Hg eq_refl). reflexivity.
Defined.

(** C1 fails as it is stated, for each of the two callbacks: an interrupt
    from the keyboard during the solve is raised in the body of
    [objfunc], and [objfunc] passes it on to the engine; an interrupt
    during the gradient computation is raised in the body of [gradfunc],
    and [gradfunc] passes it on as well. *)
Lemma callbacks_propagate_KeyboardInterrupt :
  (fst (objfunc_body Example.interrupted_base [("x", 2%Z)]
          Example.w_solving)
   = Raise (Exn KeyboardInterrupt "")
   /\ fst (objfunc Example.interrupted_base [("x", 2%Z)] Example.w_solving)
      = Raise (Exn KeyboardInterrupt ""))
  /\ (_problem (self Example.w_interrupted)
      = Some Example.interrupted_problem
      /\ fst (gradfunc_body [("x", 2%Z)] [] Example.w_interrupted)
         = Raise (Exn KeyboardInterrupt "")
      /\ fst (gradfunc [("x", 2%Z)] [] Example.w_interrupted)
         = Raise (Exn KeyboardInterrupt "")).
Proof. repeat split; vm_compute; reflexivity. Qed.

(** ** C2 *)

Lemma gradfunc_requests_quantities_witness :
  _problem (self Example.w_solving) = Some Example.problem
  /\ calc_gradient_calls
       (trace (snd (gradfunc [("x", 2%Z)] [] Example.w_solving)))
     = (calc_gradient_calls (trace Example.w_solving)
        ++ [(["x"], Names ["y"; "c_eq"; "c_in"], "dict")])%list.
Proof.
  split; [reflexivity |].
  exact (gradfunc_requests_quantities [("x", 2%Z)] [] Example.w_solving
           Example.problem eq_refl).
Defined.

(** C2 fails as it is stated: the function dictionary the evaluation
    callback has just returned names the linear constraint too, and the
    gradient callback that is handed this dictionary asks the model for
    the responses of [self.quantities], not for those the dictionary
    names. *)
Lemma gradfunc_ignores_func_dict :
  let fdict := [("y", 8); ("c_lin", 4); ("c_eq", 4); ("c_in", 4)]%Z in
  fst (objfunc Example.base [("x", 2%Z)] Example.w_solving) = Ok (fdict, 0%Z)
  /\ calc_gradient_calls
       (trace (snd (gradfunc [("x", 2%Z)] fdict Example.w_solving)))
     = (calc_gradient_calls (trace Example.w_solving)
        ++ [(["x"], Names ["y"; "c_eq"; "c_in"], "dict")])%list
  /\ calc_gradient_calls
       (trace (snd (gradfunc [("x", 2%Z)] fdict Example.w_solving)))
     <> (calc_gradient_calls (trace Example.w_solving)
         ++ [(["x"], Names (keys fdict), "dict")])%list.
Proof.
  cbv zeta. split; [vm_compute; reflexivity |].
  split; [vm_compute; reflexivity |]. vm_compute. discriminate.
Qed.

(** ** C3 *)


(** ** A supported optimizer that is not installed *)

Lemma unavailable_optimizer_witness :
  (optimizer (options (self Example.w0)) ∈ optimizer_values)
  /\ Example.no_optimizer (optimizer (options (self Example.w0))) = None
  /\ count_solves
       (trace (snd (run Example.base Example.no_optimizer Example.problem
                      Example.w0)))
     = S (count_solves (trace Example.w0)).
Proof.
  assert (Hs : optimizer (options (self Example.w0)) ∈ optimizer_values)
    by (apply (bool_decide_unpack _); vm_compute; exact I).
  split; [exact Hs |]. split; [reflexivity |].
  exact (proj1 (proj2 (unavailable_optimizer Example.base
                         Example.no_optimizer Example.problem Example.w0
                         Hs eq_refl))).
Defined.

(** With no optimizer to import, [run] raises an [ImportError], and it
    has solved the model once by then. *)
Lemma run_solves_before_import :
  fst (run Example.base Example.no_optimizer Example.problem Example.w0)
  = Raise (Exn ImportError
             "Optimizer SNOPT is not available in this installation.")
  /\ count_solves (trace Example.w0) = 0%nat
  /\ count_solves
       (trace (snd (run Example.base Example.no_optimizer Example.problem
                      Example.w0)))
     = 1%nat.
Proof. repeat split; vm_compute; reflexivity. Qed.

(** ** C4 *)


(** ** C5 *)

Lemma nonlinear_constraint_sparsity_witness :
  configure Example.base Example.problem Example.w0
  = (Ok Example.registry, Example.w_configured)
  /\ registered_vars (opt_calls (fst Example.registry)) = ["x"]
  /\ forall name size lo up lin wrt jac,
      addConGroup name size lo up lin wrt jac
        ∈ opt_calls (fst Example.registry) ->
      exists rs,
        relevant (root Example.problem) !! name = Some rs
        /\ wrt = rs ∩ list_to_set
                        (registered_vars (opt_calls (fst Example.registry))).
Proof.
  assert (H : configure Example.base Example.problem Example.w0
              = (Ok Example.registry, Example.w_configured))
    by (vm_compute; reflexivity).
  split; [exact H |].
  destruct (nonlinear_constraint_sparsity Example.base Example.problem
              Example.w0 Example.registry Example.w_configured H)
    as (Hv & _ & Hw).
  split; [exact Hv | exact Hw].
Defined.

(** In the session, [c_eq] is relevant to [x] and to [z], and only [x]
    is a registered design variable: its group, the fourth call on the
    [Optimization] object, is registered with respect to [x] alone. *)
Lemma c_eq_group :
  opt_calls (fst Example.registry) !! 3%nat
  = Some (addConGroup "c_eq" 1 (Some 3%Z) (Some 3%Z) false {[ "x" ]} None).
Proof. vm_compute. reflexivity. Qed.

(** ** C6 *)

(** The whole run of the session ends with the status 1 classified as a
    success, and a status 3 or no status at all would make it a failure. *)
Example run_exit_flag :
  exit_flag (self (snd (run Example.base Example.pyoptsparse Example.problem
                          Example.w0))) = 1%Z.
Proof. vm_compute. reflexivity. Qed.

Example bad_status_exit_flag :
  exit_flag
    (self (snd (classify_exit
                  {| getDVs := []; optInform := {[ "value" := 3%Z ]} |}
                  Example.w_solving))) = 0%Z
  /\ exit_flag
       (self (snd (classify_exit {| getDVs := []; optInform := ∅ |}
                     Example.w_solving))) = 0%Z.
Proof. split; vm_compute; reflexivity. Qed.

(** The run of the session returns: it has saved the solution of the
    engine, whose status is 1, and its [exit_flag] is 1. *)
Lemma exit_status_classification_witness :
  run Example.base Example.pyoptsparse Example.problem Example.w0
  = (Ok tt,
     snd (run Example.base Example.pyoptsparse Example.problem Example.w0))
  /\ pyopt_solution
       (self (snd (run Example.base Example.pyoptsparse Example.problem
                     Example.w0)))
     = Some Example.sol
  /\ exit_flag
       (self (snd (run Example.base Example.pyoptsparse Example.problem
                     Example.w0)))
     = 1%Z.
Proof.
  assert (H : run Example.base Example.pyoptsparse Example.problem Example.w0
              = (Ok tt,
                 snd (run Example.base Example.pyoptsparse Example.problem
                        Example.w0)))
    by (vm_compute; reflexivity).
  destruct (exit_status_classification Example.sol Example.w0)
    as (_ & _ & _ & Hrun).
  destruct (Hrun _ _ _ _ _ H) as (sol' & Hp & He).
  assert (Hs : pyopt_solution
                 (self (snd (run Example.base Example.pyoptsparse
                               Example.problem Example.w0)))
               = Some Example.sol)
    by (vm_compute; reflexivity).
  split; [exact H |]. split; [exact Hs |].
  rewrite Hs in Hp. inversion Hp; subst sol'. rewrite He.
  vm_compute; reflexivity.
Defined.

(** ** C7 *)

Lemma iteration_counter_witness :
  iter_count (self Example.w_solving) = Some 0%Z
  /\ iter_count
       (self (snd (objfunc Example.base [("x", 2%Z)] Example.w_solving)))
     = Some 1%Z.
Proof.
  split; [reflexivity |].
  destruct (iteration_counter Example.base Example.problem [("x", 2%Z)]
              sens_gradfunc (Returns Example.sol) Example.w_solving)
    as (_ & H & _).
  rewrite (H 0%Z eq_refl). vm_compute. reflexivity.
Defined.

(** C7 fails as it is stated: an evaluation point without the design
    variable [x] makes the callback fail before it reaches the counter,
    which stays at 0 through this invocation. *)
Lemma objfunc_without_increment :
  iter_count (self Example.w_solving) = Some 0%Z
  /\ fst (objfunc Example.base [] Example.w_solving) = Ok ([], 1%Z)
  /\ iter_count (self (snd (objfunc Example.base [] Example.w_solving)))
     = Some 0%Z.
Proof. repeat split; vm_compute; reflexivity. Qed.

(** ** C8 *)

(** C8.  For the component [y[0] = 2*x[0] + 7*x[1]],
    [y[1] = 5*x[0] - 3*x[1]], the complex-step Jacobian with respect to
    [x] is the coefficient matrix [[2, 7], [5, -3]], at every point and
    for every nonzero step. *)
Theorem complex_step_linear_model (x0 x1 h : Q) :
  ~ (h == 0)%Q ->
  ComplexStep.matrix_eq
    (ComplexStep.jacobian [ComplexStep.y0; ComplexStep.y1] [x0; x1] h)
    [[2; 7]; [5; -3]]%Q.
Proof.
  intros Hh. unfold ComplexStep.matrix_eq, ComplexStep.jacobian. cbn.
  repeat constructor; cbn; field; exact Hh.
Qed.

(** At the point of [test_simple_array_model], all ones, with the step
    [1e-40]. *)
Lemma complex_step_linear_model_witness :
  ~ (ComplexStep.step == 0)%Q
  /\ ComplexStep.matrix_eq
       (ComplexStep.jacobian [ComplexStep.y0; ComplexStep.y1] [1; 1]%Q
          ComplexStep.step)
       [[2; 7]; [5; -3]]%Q.
Proof.
  assert (H : ~ (ComplexStep.step == 0)%Q) by (intros H; discriminate H).
  split; [exact H |]. exact (complex_step_linear_model 1 1 _ H).
Defined.

(** The scalar check of the spec: the complex-step derivative of [x*x]
    at 3 is 6. *)
Example complex_step_square :
  ComplexStep.entry_eq
    (ComplexStep.jacobian_entry
       (ComplexStep.Mul (ComplexStep.Index 0) (ComplexStep.Index 0))
       [3]%Q ComplexStep.step 0)
    6%Q.
Proof. vm_compute. reflexivity. Qed.

(** ** C9 *)

Lemma quantities_order_witness :
  configure Example.base Example.problem Example.w0
  = (Ok Example.registry, Example.w_configured)
  /\ quantities (self Example.w_configured) = ["y"; "c_eq"; "c_in"]
  /\ quantities
       (self (snd (run Example.base Example.pyoptsparse Example.problem
                     Example.w0)))
     = ["y"; "c_eq"; "c_in"].
Proof.
  assert (H : configure Example.base Example.problem Example.w0
              = (Ok Example.registry, Example.w_configured))
    by (vm_compute; reflexivity).
  split; [exact H |].
  destruct (quantities_order Example.base Example.pyoptsparse Example.problem
              Example.w0 Example.registry Example.w_configured H)
    as (Hq & _ & _ & _ & Hr & _).
  split; [rewrite Hq; vm_compute; reflexivity |].
  rewrite Hr. rewrite Hq. vm_compute. reflexivity.
Defined.

(** ** C10 *)

Lemma gradfunc_without_problem_witness :
  _problem (self Example.w0) = None
  /\ fst (gradfunc [("x", 2%Z)] [("y", 8%Z)] Example.w0) = Ok ([], 1%Z).
Proof.
  split; [reflexivity |].
  rewrite (gradfunc_without_problem [("x", 2%Z)] [("y", 8%Z)] Example.w0
             eq_refl).
  reflexivity.
Defined.

(** * The further properties on the session of [Example] *)

Lemma objfunc_before_run_witness :
  param_list (self Example.w0) = None
  /\ fst (objfunc Example.base [("x", 2%Z)] Example.w0) = Ok ([], 1%Z).
Proof.
  split; [reflexivity |].
  destruct (objfunc_before_run Example.base [("x", 2%Z)] Example.w0 eq_refl)
    as (e & _ & H).
  rewrite H. reflexivity.
Defined.

Lemma objfunc_missing_design_variable_witness :
  param_list (self Example.w_solving) = Some ["x"]
  /\ "x" ∈ ["x"]
  /\ dict_get ([] : dict Z) "x" = None
  /\ count_solves (trace (snd (objfunc Example.base [] Example.w_solving)))
     = count_solves (trace Example.w_solving).
Proof.
  assert (Hin : "x" ∈ ["x"]) by (left).
  split; [reflexivity |]. split; [exact Hin |]. split; [reflexivity |].
  exact (proj1 (objfunc_missing_design_variable Example.base []
                  Example.w_solving ["x"] "x" eq_refl Hin eq_refl)).
Defined.

Lemma objfunc_success_calls_witness :
  objfunc Example.base [("x", 2%Z)] Example.w_solving
  = (Ok ([("y", 8); ("c_lin", 4); ("c_eq", 4); ("c_in", 4)]%Z, 0%Z),
     snd (objfunc Example.base [("x", 2%Z)] Example.w_solving))
  /\ exists evs,
       Forall2 (sets_param [("x", 2%Z)]) ["x"] evs
       /\ trace (snd (objfunc Example.base [("x", 2%Z)] Example.w_solving))
          = (trace Example.w_solving ++ evs
             ++ [EvSolveNonlinear (Some (LocalMeta "SNOPT" [1%Z]));
                 EvRecord (Some (LocalMeta "SNOPT" [1%Z]))])%list.
Proof.
  assert (H : objfunc Example.base [("x", 2%Z)] Example.w_solving
              = (Ok ([("y", 8); ("c_lin", 4); ("c_eq", 4); ("c_in", 4)]%Z,
                     0%Z),
                 snd (objfunc Example.base [("x", 2%Z)] Example.w_solving)))
    by (vm_compute; reflexivity).
  split; [exact H |].
  destruct (objfunc_success_calls _ _ _ _ _ H)
    as (pl & n & md0 & evs & Hpl & Hn & Hmd & HF & _ & _ & Ht).
  assert (pl = ["x"]) as -> by (vm_compute in Hpl; congruence).
  assert (n = 0%Z) as -> by (vm_compute in Hn; congruence).
  assert (md0 = LocalMeta "SNOPT" [0%Z]) as ->
    by (vm_compute in Hmd; congruence).
  exists evs. split; [exact HF | exact Ht].
Defined.

Lemma objfunc_success_dict_witness :
  objfunc Example.base [("x", 2%Z)] Example.w_solving
  = (Ok ([("y", 8); ("c_lin", 4); ("c_eq", 4); ("c_in", 4)]%Z, 0%Z),
     snd (objfunc Example.base [("x", 2%Z)] Example.w_solving))
  /\ exists cons : dict Z, keys cons = ["c_lin"; "c_eq"; "c_in"].
Proof.
  assert (H : objfunc Example.base [("x", 2%Z)] Example.w_solving
              = (Ok ([("y", 8); ("c_lin", 4); ("c_eq", 4); ("c_in", 4)]%Z,
                     0%Z),
                 snd (objfunc Example.base [("x", 2%Z)] Example.w_solving)))
    by (vm_compute; reflexivity).
  split; [exact H |].
  destruct (objfunc_success_dict _ _ _ _ _ H) as (objs & cons & m & _ & _ & Hk & _).
  exists cons. exact Hk.
Defined.

Lemma gradfunc_effects_witness :
  gradfunc [("x", 2%Z)] [] Example.w_solving
  = (Ok ([("y", [("x", 4)]); ("c_eq", [("x", 4)]); ("c_in", [("x", 4)])]%Z,
         0%Z),
     snd (gradfunc [("x", 2%Z)] [] Example.w_solving))
  /\ self (snd (gradfunc [("x", 2%Z)] [] Example.w_solving))
     = self Example.w_solving.
Proof.
  split; [vm_compute; reflexivity |].
  exact (proj1 (gradfunc_effects [("x", 2%Z)] [] Example.w_solving)).
Defined.

Lemma run_writes_back_optimum_witness :
  run Example.base Example.pyoptsparse Example.problem Example.w0
  = (Ok tt,
     snd (run Example.base Example.pyoptsparse Example.problem Example.w0))
  /\ exists sol,
       pyopt_solution
         (self (snd (run Example.base Example.pyoptsparse Example.problem
                       Example.w0))) = Some sol.
Proof.
  assert (H : run Example.base Example.pyoptsparse Example.problem Example.w0
              = (Ok tt,
                 snd (run Example.base Example.pyoptsparse Example.problem
                        Example.w0)))
    by (vm_compute; reflexivity).
  split; [exact H |].
  destruct (run_writes_back_optimum _ _ _ _ _ _ H) as (sol & t & evs & Hs & _).
  exists sol. exact Hs.
Defined.

Lemma run_failure_state_witness :
  run Example.base Example.broken_pyoptsparse Example.problem Example.w0
  = (Raise (Exn RuntimeError "engine failure"),
     snd (run Example.base Example.broken_pyoptsparse Example.problem
            Example.w0))
  /\ pyopt_solution
       (self (snd (run Example.base Example.broken_pyoptsparse
                     Example.problem Example.w0))) = None.
Proof.
  assert (H : run Example.base Example.broken_pyoptsparse Example.problem
                Example.w0
              = (Raise (Exn RuntimeError "engine failure"),
                 snd (run Example.base Example.broken_pyoptsparse
                        Example.problem Example.w0)))
    by (vm_compute; reflexivity).
  split; [exact H |].
  exact (proj1 (run_failure_state _ _ _ _ _ _ H)).
Defined.

Lemma solve_failure_keeps_problem_witness :
  solve Example.base Example.problem (Example.broken, [])
    (fst Example.registry) Example.w_configured
  = (Raise (Exn RuntimeError "engine failure"),
     snd (solve Example.base Example.problem (Example.broken, [])
            (fst Example.registry) Example.w_configured))
  /\ _problem
       (self (snd (solve Example.base Example.problem (Example.broken, [])
                     (fst Example.registry) Example.w_configured)))
     = Some Example.problem.
Proof.
  assert (H : solve Example.base Example.problem (Example.broken, [])
                (fst Example.registry) Example.w_configured
              = (Raise (Exn RuntimeError "engine failure"),
                 snd (solve Example.base Example.problem (Example.broken, [])
                        (fst Example.registry) Example.w_configured)))
    by (vm_compute; reflexivity).
  split; [exact H |].
  exact (solve_failure_keeps_problem _ _ _ _ _ _ _ H).
Defined.


Lemma instantiate_sets_options_witness :
  instantiate Example.pyoptsparse Example.w_fd
  = (Ok (Example.snopt, [("Major iterations limit", 100%Z)]),
     snd (instantiate Example.pyoptsparse Example.w_fd))
  /\ trace (snd (instantiate Example.pyoptsparse Example.w_fd))
     = [EvSetOption "Major iterations limit" 100%Z].
Proof.
  assert (H : instantiate Example.pyoptsparse Example.w_fd
              = (Ok (Example.snopt, [("Major iterations limit", 100%Z)]),
                 snd (instantiate Example.pyoptsparse Example.w_fd)))
    by (vm_compute; reflexivity).
  split; [exact H |].
  destruct (instantiate_sets_options _ _ _ _ _ H) as (_ & _ & Hw).
  rewrite Hw. reflexivity.
Defined.

Lemma registry_design_variables_witness :
  configure Example.base Example.problem Example.w0
  = (Ok Example.registry, Example.w_configured)
  /\ opt_calls (fst Example.registry) !! 1%nat
     = Some finalizeDesignVariables.
Proof.
  assert (H : configure Example.base Example.problem Example.w0
              = (Ok Example.registry, Example.w_configured))
    by (vm_compute; reflexivity).
  split; [exact H |].
  destruct (registry_design_variables _ _ _ _ _ H)
    as (s & params & objs & _ & _ & _ & _ & Hf & _).
  exact Hf.
Defined.

Lemma registry_bounds_witness :
  NoDup (keys (get_constraint_metadata Example.base))
  /\ configure Example.base Example.problem Example.w0
     = (Ok Example.registry, Example.w_configured)
  /\ exists rs,
       addConGroup "c_in" 1 (Some (-5)%Z) (Some 50%Z) false
         (rs ∩ list_to_set ["x"]) None
       ∈ opt_calls (fst Example.registry).
Proof.
  assert (Hnd : NoDup (keys (get_constraint_metadata Example.base))).
  { apply (bool_decide_unpack _). vm_compute. exact I. }
  assert (H : configure Example.base Example.problem Example.w0
              = (Ok Example.registry, Example.w_configured))
    by (vm_compute; reflexivity).
  split; [exact Hnd |]. split; [exact H |].
  destruct (registry_bounds _ _ _ _ _ Hnd H "c_in"
              {| cm_size := 1; cm_equals := None; cm_lower := Some (-5)%Z;
                 cm_upper := Some 50%Z; cm_linear := false |})
    as (rs & _ & Hin).
  - cbn. unfold Example.con_meta. right. right. left.
  - reflexivity.
  - exists rs. exact Hin.
Defined.

Lemma linear_jacobian_once_witness :
  build_registry Example.base Example.problem Example.w_solved
  = (Ok Example.registry, Example.w_configured)
  /\ constraint_names Example.base ctype_all lintype_linear <> []
  /\ exists lcons : dict Z,
       calc_gradient_calls (trace Example.w_configured)
       = (calc_gradient_calls (trace Example.w_solved)
          ++ [(["x"], Values (values lcons), "dict")])%list.
Proof.
  assert (H : build_registry Example.base Example.problem Example.w_solved
              = (Ok Example.registry, Example.w_configured))
    by (vm_compute; reflexivity).
  assert (Hne : constraint_names Example.base ctype_all lintype_linear <> [])
    by (vm_compute; discriminate).
  split; [exact H |]. split; [exact Hne |].
  destruct (proj2 (linear_jacobian_once _ _ _ _ _ H) Hne)
    as (lcons & m & m' & _ & _ & Hc).
  exists lcons. exact Hc.
Defined.

(** The three dictionaries of a failed evaluation at [x = 2]: empty when
    the solve diverges, the objective alone when the constraints cannot
    be read, the objective and the constraints when the recorder fails. *)
Lemma objfunc_failure_dict_witness :
  (objfunc Example.diverging_base [("x", 2%Z)] Example.w_solving
   = (Ok ([], 1%Z),
      snd (objfunc Example.diverging_base [("x", 2%Z)] Example.w_solving)))
  /\ (objfunc Example.unreadable_base [("x", 2%Z)] Example.w_solving
      = (Ok ([("y", 8%Z)], 1%Z),
         snd (objfunc Example.unreadable_base [("x", 2%Z)]
                Example.w_solving))
      /\ exists objs m,
           get_objectives Example.unreadable_base m = Ok objs
           /\ [("y", 8%Z)] = store_all objs [])
  /\ (objfunc Example.unrecordable_base [("x", 2%Z)] Example.w_solving
      = (Ok ([("y", 8%Z); ("c_lin", 4%Z); ("c_eq", 4%Z); ("c_in", 4%Z)],
             1%Z),
         snd (objfunc Example.unrecordable_base [("x", 2%Z)]
                Example.w_solving))
      /\ exists objs cons m,
           get_objectives Example.unrecordable_base m = Ok objs
           /\ get_constraints Example.unrecordable_base ctype_all
                lintype_all m = Ok cons
           /\ [("y", 8%Z); ("c_lin", 4%Z); ("c_eq", 4%Z); ("c_in", 4%Z)]
              = store_all (objs ++ cons)%list []).
Proof.
  assert (H1 : objfunc Example.diverging_base [("x", 2%Z)] Example.w_solving
               = (Ok ([], 1%Z),
                  snd (objfunc Example.diverging_base [("x", 2%Z)]
                         Example.w_solving)))
    by (vm_compute; reflexivity).
  assert (H2 : objfunc Example.unreadable_base [("x", 2%Z)]
                 Example.w_solving
               = (Ok ([("y", 8%Z)], 1%Z),
                  snd (objfunc Example.unreadable_base [("x", 2%Z)]
                         Example.w_solving)))
    by (vm_compute; reflexivity).
  assert (H3 : objfunc Example.unrecordable_base [("x", 2%Z)]
                 Example.w_solving
               = (Ok ([("y", 8%Z); ("c_lin", 4%Z); ("c_eq", 4%Z);
                       ("c_in", 4%Z)], 1%Z),
                  snd (objfunc Example.unrecordable_base [("x", 2%Z)]
                         Example.w_solving)))
    by (vm_compute; reflexivity).
  split; [exact H1 |]. split; (split; [assumption |]).
  - destruct (objfunc_failure_dict _ _ _ _ _ H2)
      as [He | (objs & m & Ho & [Hf | (cons & Hc & _)])].
    + discriminate He.
    + exists objs, m. split; [exact Ho | exact Hf].
    + cbn in Hc. discriminate Hc.
  - destruct (objfunc_failure_dict _ _ _ _ _ H3)
      as [He | (objs & m & Ho & [Hf | (cons & Hc & Hf)])].
    + discriminate He.
    + cbn in Ho. inversion Ho; subst. cbn in Hf. discriminate Hf.
    + exists objs, cons, m. repeat split; assumption.
Defined.

(** * The complex step on polynomial expressions *)

Module ComplexStepFacts.

Import ComplexStep.
Local Open Scope Q_scope.

Lemma nth_error_perturb (x : list Q) (j : nat) (h : Q) (i : nat) :
  (i < length x)%nat ->
  nth_error (perturb x j h) i
  = Some (Cx (nth i x 0) (if Nat.eqb i j then h else 0)).
Proof.
  revert j i. induction x as [| xi x IH]; intros j i Hi; cbn in Hi; [lia |].
  destruct j as [| j]; destruct i as [| i]; cbn; try reflexivity.
  - clear IH. revert i Hi. induction x as [| a x IHx]; intros i Hi; cbn in *;
      [lia |].
    destruct i as [| i]; cbn; [reflexivity |]. apply IHx. lia.
  - apply IH. lia.
Qed.

(** What the perturbed evaluation gives, by the degree of the
    expression.  At degree 0 the result is real and the derivative is 0;
    up to degree 1 the real part is the value at the point; up to degree
    2 the imaginary part is the derivative times the step. *)
Lemma eval_degree (x : list Q) (j : nat) (h : Q) (e : expr) :
  in_range (length x) e = true ->
  exists y, eval (perturb x j h) e = Some y
            /\ ((degree e = 0)%nat -> im y == 0 /\ deriv x e j == 0)
            /\ ((degree e <= 1)%nat -> re y == value_at x e)
            /\ ((degree e <= 2)%nat -> im y == deriv x e j * h).
Proof.
  induction e as [c | i | a IHa b IHb | a IHa b IHb | a IHa b IHb];
    cbn [degree in_range]; intros Hr.
  - exists (Cx c 0). cbn. split; [reflexivity |].
    split; [intros _; split; reflexivity |].
    split; [intros _; reflexivity | intros _; ring].
  - apply Nat.ltb_lt in Hr. cbn. rewrite (nth_error_perturb _ _ _ _ Hr).
    eexists. split; [reflexivity |]. cbn.
    split; [intros H; discriminate H |].
    split; [intros _; reflexivity |].
    intros _. destruct (Nat.eqb i j); ring.
  - apply andb_prop in Hr as [Hr1 Hr2].
    destruct (IHa Hr1) as (ya & Ea & Za & Ra & Ia).
    destruct (IHb Hr2) as (yb & Eb & Zb & Rb & Ib).
    exists (cadd ya yb). cbn. rewrite Ea, Eb. split; [reflexivity |]. cbn.
    split; [| split].
    + intros H. destruct (Za ltac:(lia)) as [Za' Da].
      destruct (Zb ltac:(lia)) as [Zb' Db].
      rewrite Za', Zb', Da, Db. split; ring.
    + intros H. rewrite Ra, Rb by lia. reflexivity.
    + intros H. rewrite Ia, Ib by lia. ring.
  - apply andb_prop in Hr as [Hr1 Hr2].
    destruct (IHa Hr1) as (ya & Ea & Za & Ra & Ia).
    destruct (IHb Hr2) as (yb & Eb & Zb & Rb & Ib).
    exists (csub ya yb). cbn. rewrite Ea, Eb. split; [reflexivity |]. cbn.
    split; [| split].
    + intros H. destruct (Za ltac:(lia)) as [Za' Da].
      destruct (Zb ltac:(lia)) as [Zb' Db].
      rewrite Za', Zb', Da, Db. split; ring.
    + intros H. rewrite Ra, Rb by lia. reflexivity.
    + intros H. rewrite Ia, Ib by lia. ring.
  - apply andb_prop in Hr as [Hr1 Hr2].
    destruct (IHa Hr1) as (ya & Ea & Za & Ra & Ia).
    destruct (IHb Hr2) as (yb & Eb & Zb & Rb & Ib).
    exists (cmul ya yb). cbn. rewrite Ea, Eb. split; [reflexivity |]. cbn.
    split; [| split].
    + intros H. destruct (Za ltac:(lia)) as [Za' Da].
      destruct (Zb ltac:(lia)) as [Zb' Db].
      rewrite Za', Zb', Da, Db. split; ring.
    + intros H.
      destruct (Nat.eq_dec (degree a) 0%nat) as [Ha | Ha].
      * destruct (Za Ha) as [Za' _].
        rewrite Za', Ra, Rb by lia. ring.
      * destruct (Zb ltac:(lia)) as [Zb' _].
        rewrite Zb', Ra, Rb by lia. ring.
    + intros H.
      destruct (Nat.eq_dec (degree a) 0%nat) as [Ha | Ha];
        [| destruct (Nat.eq_dec (degree b) 0%nat) as [Hb | Hb]].
      * destruct (Za Ha) as [Za' Da].
        rewrite Za', Da, Ra, Ib by lia. ring.
      * destruct (Zb Hb) as [Zb' Db].
        rewrite Zb', Db, Rb, Ia by lia. ring.
      * rewrite Ra, Rb, Ia, Ib by lia. ring.
Qed.

End ComplexStepFacts.

(** X15.  On an expression of degree at most two in the entries of its
    input array (products add the degrees of their factors), the
    complex-step derivative with respect to any entry is the exact
    partial derivative, at every point and for every nonzero step: no
    truncation error is left. *)
Theorem complex_step_exact_degree2 (e : ComplexStep.expr) (x : list Q)
    (h : Q) (j : nat) :
  (ComplexStep.degree e <= 2)%nat ->
  ComplexStep.in_range (length x) e = true ->
  ~ (h == 0)%Q ->
  ComplexStep.entry_eq (ComplexStep.jacobian_entry e x h j)
    (ComplexStep.deriv x e j).
Proof.
  intros Hd Hr Hh. unfold ComplexStep.jacobian_entry.
  destruct (ComplexStepFacts.eval_degree x j h e Hr) as (y & E & _ & _ & I).
  rewrite E. cbn. rewrite (I Hd). field. exact Hh.
Qed.

(** [y = x*x + x*2.0] at [x = 2], the component of [test_complex_step2]:
    the derivative is 6.  And [(x0*x1)*2.0 - 3.0*(x1*x1)] at [(2, 5)]:
    the derivative with respect to [x1] is [2*2 - 6*5 = -26]. *)
Lemma complex_step_exact_degree2_witness :
  ((ComplexStep.degree ComplexStep.square_plus_double <= 2)%nat
   /\ ComplexStep.in_range (length [2%Q]) ComplexStep.square_plus_double
      = true
   /\ ~ (ComplexStep.step == 0)%Q
   /\ ComplexStep.entry_eq
        (ComplexStep.jacobian_entry ComplexStep.square_plus_double [2%Q]
           ComplexStep.step 0)
        6%Q)
  /\ ((ComplexStep.degree ComplexStep.scaled_products <= 2)%nat
      /\ ComplexStep.in_range (length [2%Q; 5%Q])
           ComplexStep.scaled_products = true
      /\ ComplexStep.entry_eq
           (ComplexStep.jacobian_entry ComplexStep.scaled_products
              [2%Q; 5%Q] ComplexStep.step 1)
           (-26)%Q).
Proof.
  assert (H : ~ (ComplexStep.step == 0)%Q) by (intros H; discriminate H).
  assert (H1 : (ComplexStep.degree ComplexStep.square_plus_double <= 2)%nat)
    by (cbn; lia).
  assert (H2 : (ComplexStep.degree ComplexStep.scaled_products <= 2)%nat)
    by (cbn; lia).
  split.
  - split; [exact H1 |]. split; [reflexivity |]. split; [exact H |].
    exact (complex_step_exact_degree2 ComplexStep.square_plus_double [2%Q]
             ComplexStep.step 0 H1 eq_refl H).
  - split; [exact H2 |]. split; [reflexivity |].
    exact (complex_step_exact_degree2 ComplexStep.scaled_products
             [2%Q; 5%Q] ComplexStep.step 1 H2 eq_refl H).
Defined.

(** Beyond degree two the complex step is no longer exact: on [x*x*x] it
    gives [3*x*x - h*h]. *)
Example complex_step_cube :
  ComplexStep.entry_eq
    (ComplexStep.jacobian_entry
       (ComplexStep.Mul (ComplexStep.Index 0)
          (ComplexStep.Mul (ComplexStep.Index 0) (ComplexStep.Index 0)))
       [2%Q] (1 # 10) 0)
    (1199 # 100)%Q.
Proof. vm_compute. reflexivity. Qed.
